(** * s2testing.h: the nearest-result verifier

    A shallow embedding of the template functions that [src/s2/s2testing.h]
    defines: [S2.internal.CompareFirst], [S2.internal.CheckResultSet] and
    [CheckDistanceResults].  The classes [S2Testing::Random] and
    [S2Testing::Fractal] are only declared there; their method bodies are
    not part of the header and they are not modelled.

    Angles are IEEE binary64 values, as in the code ([S1Angle] wraps one
    [double]); they are modelled by Rocq's primitive floats, so that the
    comparisons and subtractions of the verifier round exactly as the C++
    does.  The gtest expectations ([EXPECT_TRUE], [EXPECT_EQ]) and the lines
    written to [std::cout] are effects: they are collected, in program
    order, in the log of a small writer monad. *)

From Stdlib Require Import ZArith List Bool String Lia Floats.
From Stdlib Require Import OrderedTypeEx Sorted Permutation.
Import ListNotations.

Local Open Scope Z_scope.

(** ** Machine integers *)

(** [int] is 32 bits wide, [size_t] 64 bits wide (LP64). *)
Definition int_bits : Z := 32.
Definition size_t_bits : Z := 64.

Definition INT_MIN : Z := - 2 ^ (int_bits - 1).
Definition INT_MAX : Z := 2 ^ (int_bits - 1) - 1.
Definition SIZE_MAX : Z := 2 ^ size_t_bits - 1.

(** The values an [int] can hold. *)
Definition is_int (z : Z) : Prop := INT_MIN <= z <= INT_MAX.

(** Conversion of a signed value to [size_t]: reduction modulo [2^64].  This
  is the conversion the usual arithmetic conversions apply to the [int]
  operand of [x.size() < max_size]. *)
Definition to_size_t (z : Z) : Z := z mod 2 ^ size_t_bits.

(** A [std::vector] never holds more than [PTRDIFF_MAX] elements. *)
Definition vector_max_size : Z := 2 ^ (size_t_bits - 1) - 1.

(** ** S1Angle *)

Module S1Angle.

(** Modelled from the spec: [s2/s1angle.h] is not among the sources.  An
    angular distance is one binary64 number of radians; ordering, equality
    and subtraction are those of the underlying [double]. *)
Record t : Set := Radians { radians : float }.

Definition Zero : t := Radians 0%float.

Definition M_PI : float := 0x1.921fb54442d18p+1%float.

Definition Degrees (degrees : float) : t :=
  Radians ((M_PI / 180) * degrees)%float.

Definition sub (a b : t) : t := Radians (radians a - radians b)%float.
Definition ltb (a b : t) : bool := PrimFloat.ltb (radians a) (radians b).
Definition leb (a b : t) : bool := PrimFloat.leb (radians a) (radians b).
Definition eqb (a b : t) : bool := PrimFloat.eqb (radians a) (radians b).

(** Not a NaN: the value is ordered with respect to itself. *)
Definition is_number (a : t) : bool := eqb a a.

End S1Angle.

Declare Scope angle_scope.
Delimit Scope angle_scope with angle.
Bind Scope angle_scope with S1Angle.t.
Infix "-" := S1Angle.sub : angle_scope.
Infix "<?" := S1Angle.ltb : angle_scope.
Infix "<=?" := S1Angle.leb : angle_scope.
Infix "=?" := S1Angle.eqb : angle_scope.

(** ** Identifiers

  The template parameter [Id] is used through [operator==] (by
  [std::count]) and [operator<] (by [std::set]). *)
Class IdOps (Id : Type) : Type := {
id_eqb : Id -> Id -> bool;
id_ltb : Id -> Id -> bool
}.

#[export] Instance string_IdOps : IdOps string := {
id_eqb := String.eqb;
id_ltb := String.ltb
}.

#[export] Instance Z_IdOps : IdOps Z := {
id_eqb := Z.eqb;
id_ltb := Z.ltb
}.

(** ** Effects of a check: gtest expectations and diagnostics *)

(** [std::pair<S1Angle, Id>] *)
Definition Result (Id : Type) : Type := (S1Angle.t * Id)%type.

Section Log.

Context {Id : Type}.

(** What a check leaves behind besides its return value.
    - [ExpectFailure e]: a gtest expectation failed; the failure is
      recorded for the running test and execution continues.  [e] is the
      text of the expectation.
    - [Diagnostic label p]: the line
      [label << " distance = " << p.first << ", id = " << p.second]
      written to [std::cout].  The rendering of the two values is left
      to their [operator<<]. *)
Inductive Event : Type :=
| ExpectFailure (e : string)
| Diagnostic (label : string) (p : Result Id).

(** A computation with a log: its value and the events it produced, oldest
    first. *)
Definition Test (A : Type) : Type := A * list Event.

Definition ret {A} (a : A) : Test A := (a, []).

Definition bind {A B} (m : Test A) (k : A -> Test B) : Test B :=
  let (a, l1) := m in
  let (b, l2) := k a in
  (b, l1 ++ l2).

Definition value {A} (m : Test A) : A := fst m.
Definition events {A} (m : Test A) : list Event := snd m.

(** [EXPECT_TRUE(cond)] and [EXPECT_EQ(a, b) << msg]: non-fatal. *)
Definition EXPECT_TRUE (cond : bool) (e : string) : Test unit :=
  (tt, if cond then [] else [ExpectFailure e]).

Definition EXPECT_EQ (a b : Z) (e : string) : Test unit :=
  (tt, if a =? b then [] else [ExpectFailure e]).

Definition cout (label : string) (p : Result Id) : Test unit :=
  (tt, [Diagnostic label p]).

End Log.

Arguments Event Id : clear implicits.
Arguments Test Id A : clear implicits.

Notation "x <- m ;; k" := (bind m (fun x => k))
  (at level 61, m at next level, right associativity).
Notation "m ;;; k" := (bind m (fun _ => k))
  (at level 61, right associativity).

(** ** namespace S2::internal *)

Module S2_internal.
Section CheckResultSet.

Context {Id : Type} `{IdOps Id}.
Local Open Scope angle_scope.

(** [CompareFirst<S1Angle, Id>::operator()] *)
Definition CompareFirst (x y : Result Id) : bool := fst x <? fst y.

(** [operator==] and [operator<] of [std::pair]. *)
Definition pair_eqb (x y : Result Id) : bool :=
  (fst x =? fst y) && id_eqb (snd x) (snd y).

Definition pair_ltb (x y : Result Id) : bool :=
  (fst x <? fst y) || (negb (fst y <? fst x) && id_ltb (snd x) (snd y)).

(** [std::is_sorted(first, last, comp)]: no element compares less than
    its predecessor. *)
Fixpoint is_sorted (comp : Result Id -> Result Id -> bool)
    (l : list (Result Id)) : bool :=
  match l with
  | [] => true
  | a :: l' =>
      match l' with
      | [] => true
      | b :: _ => negb (comp b a) && is_sorted comp l'
      end
  end.

(** [std::count(first, last, value)] *)
Fixpoint count (l : list (Result Id)) (value : Result Id) : Z :=
  match l with
  | [] => 0
  | e :: l' => (if pair_eqb e value then 1 else 0) + count l' value
  end.

(** [std::set<std::pair<S1Angle, Id>>], as the ascending list of its
    keys.  [set_insert] is [std::set::insert]: the key is placed before
    the first key it is less than, and dropped when an equivalent key
    (neither less than the other) is met first. *)
Fixpoint set_insert (p : Result Id) (s : list (Result Id))
  : list (Result Id) :=
  match s with
  | [] => [p]
  | q :: s' =>
      if pair_ltb p q then p :: s
      else if pair_ltb q p then q :: set_insert p s'
      else s
  end.

(** The range constructor [std::set(first, last)]. *)
Definition set_of_range (l : list (Result Id)) : list (Result Id) :=
  fold_left (fun s p => set_insert p s) l [].

(** [x.size()] *)
Definition size (l : list (Result Id)) : Z := Z.of_nat (List.length l).

(** [x.back()]; [None] stands for the empty vector, on which the code
    never calls it. *)
Fixpoint back (x : list (Result Id)) : option (Result Id) :=
  match x with
  | [] => None
  | p :: x' => match x' with [] => Some p | _ :: _ => back x' end
  end.

(** The coverage limit (the variable [limit]): result set [x] should
    contain all the items whose distance is less than it.  The test
    [x.size() < max_size] compares a [size_t] with an [int], so the [int]
    is converted to [size_t] first. *)
Definition coverage_limit (x : list (Result Id)) (max_size : Z)
    (max_distance max_error max_pruning_error : S1Angle.t) : S1Angle.t :=
  if (size x <? to_size_t max_size)%Z then
    max_distance - max_pruning_error
  else
    match back x with
    | Some p => fst p - max_error - max_pruning_error
    | None => S1Angle.Zero
    end.

(** The text of the two expectations. *)
Definition sorted_expectation : string :=
  "std::is_sorted(x.begin(), x.end(), cmp)".
Definition duplicates_expectation : string :=
  "Result set contains duplicates".

(** One iteration of the loop over [y]; [result] is the loop-carried
    variable. *)
Definition check_pair (x : list (Result Id)) (limit : S1Angle.t)
    (label : string) (result : bool) (p : Result Id) : Test Id bool :=
  if (fst p <? limit) && negb (count x p =? 1)%Z then
    cout label p ;;;
    ret false
  else
    ret result.

(** [for (auto const& p : y) ...] *)
Fixpoint for_each (body : bool -> Result Id -> Test Id bool)
    (y : list (Result Id)) (result : bool) : Test Id bool :=
  match y with
  | [] => ret result
  | p :: y' =>
      result' <- body result p ;;
      for_each body y' result'
  end.

(** Check that result set [x] contains all the expected results from [y],
    and does not include any duplicate results. *)
Definition CheckResultSet (x y : list (Result Id)) (max_size : Z)
    (max_distance max_error max_pruning_error : S1Angle.t)
    (label : string) : Test Id bool :=
  (* Results should be sorted by distance. *)
  EXPECT_TRUE (is_sorted CompareFirst x) sorted_expectation ;;;
  (* Make sure there are no duplicate values. *)
  let x_set := set_of_range x in
  EXPECT_EQ (size x_set) (size x) duplicates_expectation ;;;
  let limit :=
    coverage_limit x max_size max_distance max_error max_pruning_error in
  for_each (check_pair x limit label) y true.

End CheckResultSet.
End S2_internal.

(** ** CheckDistanceResults *)

(** The operands of [&] are unsequenced: either call may run first. *)
Inductive EvalOrder : Set := LeftFirst | RightFirst.

Section CheckDistanceResults.

Context {Id : Type} `{IdOps Id}.
Import S2_internal.

(** [S1Angle::Radians(1e-15)]; the literal is the binary64 value nearest to
    [1e-15]. *)
Definition kMaxPruningError : S1Angle.t :=
  S1Angle.Radians 0x1.203af9ee75616p-50%float.

Definition Missing_check (expected actual : list (Result Id)) (max_size : Z)
    (max_distance max_error : S1Angle.t) : Test Id bool :=
  CheckResultSet actual expected max_size max_distance max_error
    kMaxPruningError "Missing".

Definition Extra_check (expected actual : list (Result Id)) (max_size : Z)
    (max_distance max_error : S1Angle.t) : Test Id bool :=
  CheckResultSet expected actual max_size max_distance max_error
    S1Angle.Zero "Extra".

(** [a & b] on two calls, evaluated in the given order; both are always
    evaluated. *)
Definition bitand (order : EvalOrder) (a b : Test Id bool) : Test Id bool :=
  match order with
  | LeftFirst => ra <- a ;; rb <- b ;; ret (ra && rb)
  | RightFirst => rb <- b ;; ra <- a ;; ret (ra && rb)
  end.

Definition CheckDistanceResults (order : EvalOrder)
    (expected actual : list (Result Id)) (max_size : Z)
    (max_distance max_error : S1Angle.t) : Test Id bool :=
  bitand order
    (Missing_check expected actual max_size max_distance max_error)
    (Extra_check expected actual max_size max_distance max_error).

End CheckDistanceResults.

(** ** Vocabulary of the properties *)

Section Vocabulary.

Context {Id : Type} `{IdOps Id}.
Import S2_internal.
Local Open Scope angle_scope.

(** The condition under which the loop body reports [p]. *)
Definition violates (x : list (Result Id)) (limit : S1Angle.t)
    (p : Result Id) : bool :=
  (fst p <? limit) && negb (count x p =? 1)%Z.

(** Two keys are equivalent for [std::set] when neither is less than the
    other. *)
Definition equivalent (p q : Result Id) : bool :=
  negb (pair_ltb p q) && negb (pair_ltb q p).

(** The keys of a set are in strictly ascending order. *)
Definition ascending (s : list (Result Id)) : Prop :=
  StronglySorted (fun p q => pair_ltb p q = true) s.

(** No distance of the sequence is a NaN. *)
Definition distances_are_numbers (x : list (Result Id)) : Prop :=
  forall p, In p x -> S1Angle.is_number (fst p) = true.

(** Some pair occurs at two positions of the sequence. *)
Definition has_duplicate (x : list (Result Id)) : Prop :=
  exists l1 p l2 l3, x = l1 ++ p :: l2 ++ p :: l3.

(** Some element has a strictly smaller distance than an earlier one. *)
Definition out_of_order (x : list (Result Id)) : Prop :=
  exists l1 a l2 b l3,
    x = l1 ++ a :: l2 ++ b :: l3 /\ (fst b <? fst a) = true.

(** The coverage limit as the specification words it: the size test is the
    comparison of two numbers, and the limit is left open when [x] is empty
    and not shorter than [max_size]. *)
Definition specified_limit (x : list (Result Id)) (max_size : Z)
    (max_distance max_error max_pruning_error : S1Angle.t)
  : option S1Angle.t :=
  if (size x <? max_size)%Z then Some (max_distance - max_pruning_error)
  else
    match back x with
    | Some p => Some (fst p - max_error - max_pruning_error)
    | None => None
    end.

End Vocabulary.

(** [operator<] of [Id] is a strict weak ordering, as [std::set] requires of
    its keys. *)
Class IdLaws (Id : Type) `{IdOps Id} : Prop := {
  id_ltb_irrefl : forall a, id_ltb a a = false;
  id_ltb_trans : forall a b c,
    id_ltb a b = true -> id_ltb b c = true -> id_ltb a c = true;
  id_ltb_cotrans : forall a b c,
    id_ltb a c = true -> id_ltb a b = true \/ id_ltb b c = true
}.

(** ** Sequences used in the examples *)

Module Examples.

Local Open Scope string_scope.

Definition expected : list (Result string) :=
  [(S1Angle.Degrees 1, "a"); (S1Angle.Degrees 2, "b");
   (S1Angle.Degrees 3, "c")].

Definition truncated : list (Result string) :=
  [(S1Angle.Degrees 1, "a"); (S1Angle.Degrees 2, "b")].

Definition doubled : list (Result string) :=
  [(S1Angle.Degrees 1, "a"); (S1Angle.Degrees 1, "a")].

Definition single : list (Result string) :=
  [(S1Angle.Degrees 1, "a")].

Definition first_two : list (Result string) :=
  [(S1Angle.Degrees 1, "a"); (S1Angle.Degrees 2, "b")].

Definition reversed : list (Result string) :=
  [(S1Angle.Degrees 2, "b"); (S1Angle.Degrees 1, "a")].

Definition farther : list (Result string) :=
  [(S1Angle.Degrees 2, "b")].

End Examples.

(** ** Vocabulary of the further properties *)

Section FurtherVocabulary.

Context {Id : Type} `{IdOps Id}.
Import S2_internal.
Local Open Scope angle_scope.

(** Some element has a strictly smaller distance than its predecessor. *)
Definition has_descent (x : list (Result Id)) : Prop :=
  exists l1 a b l3, x = l1 ++ a :: b :: l3 /\ (fst b <? fst a) = true.

(** Two positions of the sequence hold keys that [std::set] takes for the
    same key. *)
Definition has_equivalent_keys (x : list (Result Id)) : Prop :=
  exists l1 q l2 p l3,
    x = l1 ++ q :: l2 ++ p :: l3 /\ equivalent p q = true.

End FurtherVocabulary.

(** [operator==] of [Id] agrees with its [operator<]: two identifiers are
    equal exactly when neither is less than the other. *)
Class IdEqLaws (Id : Type) `{IdOps Id} : Prop := {
  id_eqb_ltb : forall a b,
    id_eqb a b = negb (id_ltb a b) && negb (id_ltb b a)
}.

(** ** More sequences for the examples *)

Module MoreExamples.

Local Open Scope string_scope.

(** [actual] with the middle pair of [Examples.expected] left out. *)
Definition gapped : list (Result string) :=
  [(S1Angle.Degrees 1, "a"); (S1Angle.Degrees 3, "c")].

(** [S1Angle::Radians(NaN)] *)
Definition not_a_number : S1Angle.t := S1Angle.Radians PrimFloat.nan.

End MoreExamples.

(** * Properties *)

(** ** The log *)

Section LogFacts.

Context {Id : Type}.

Lemma value_bind {A B} (m : Test Id A) (k : A -> Test Id B) :
  value (bind m k) = value (k (value m)).
Proof.
  destruct m as [a l1]; unfold bind, value; simpl.
  destruct (k a); reflexivity.
Qed.

Lemma events_bind {A B} (m : Test Id A) (k : A -> Test Id B) :
  events (bind m k) = events m ++ events (k (value m)).
Proof.
  destruct m as [a l1]; unfold bind, events, value; simpl.
  destruct (k a); reflexivity.
Qed.

Lemma value_ret {A} (a : A) : value (@ret Id A a) = a.
Proof. reflexivity. Qed.

Lemma events_ret {A} (a : A) : events (@ret Id A a) = [].
Proof. reflexivity. Qed.

End LogFacts.

Create Rewrite HintDb test_log.
#[global] Hint Rewrite @value_bind @events_bind @value_ret @events_ret
  : test_log.

(** ** The loop over the reference sequence *)

Section LoopFacts.

Context {Id : Type} `{IdOps Id}.
Import S2_internal.
Local Open Scope angle_scope.

Lemma value_check_pair x limit label result p :
  value (check_pair x limit label result p)
  = result && negb (violates x limit p).
Proof.
  unfold check_pair; fold (violates x limit p).
  destruct (violates x limit p); autorewrite with test_log; simpl.
  - now rewrite andb_false_r.
  - now rewrite andb_true_r.
Qed.

Lemma events_check_pair x limit label result p :
  events (check_pair x limit label result p)
  = if violates x limit p then [Diagnostic label p] else [].
Proof.
  unfold check_pair; fold (violates x limit p).
  destruct (violates x limit p); reflexivity.
Qed.

(** The loop returns [true] exactly when it started from [true] and no pair
    of [y] violates the requirement. *)
Lemma value_for_each x limit label y : forall result,
  value (for_each (check_pair x limit label) y result)
  = result && forallb (fun p => negb (violates x limit p)) y.
Proof.
  induction y as [|p y IH]; intro result; cbn [for_each forallb].
  - now rewrite value_ret, andb_true_r.
  - rewrite value_bind, IH, value_check_pair. now rewrite andb_assoc.
Qed.

(** It writes one diagnostic per violating pair, in the order of [y]. *)
Lemma events_for_each x limit label y : forall result,
  events (for_each (check_pair x limit label) y result)
  = map (Diagnostic label) (filter (violates x limit) y).
Proof.
  induction y as [|p y IH]; intro result; cbn [for_each filter map].
  - reflexivity.
  - rewrite events_bind, IH, events_check_pair.
    destruct (violates x limit p); reflexivity.
Qed.

Lemma violates_false_iff x limit p :
  violates x limit p = false <->
  ((fst p <? limit) = true -> count x p = 1%Z).
Proof.
  unfold violates.
  destruct (fst p <? limit); simpl.
  - rewrite negb_false_iff, Z.eqb_eq. tauto.
  - split; [discriminate | reflexivity].
Qed.

(** What [CheckResultSet] returns. *)
Lemma value_CheckResultSet x y max_size max_distance max_error tol label :
  value (CheckResultSet x y max_size max_distance max_error tol label)
  = forallb (fun p => negb (violates x
       (coverage_limit x max_size max_distance max_error tol) p)) y.
Proof.
  unfold CheckResultSet.
  rewrite !value_bind, value_for_each. reflexivity.
Qed.

(** What it leaves in the log. *)
Lemma events_CheckResultSet x y max_size max_distance max_error tol label :
  events (CheckResultSet x y max_size max_distance max_error tol label)
  = (if is_sorted CompareFirst x then []
     else [ExpectFailure sorted_expectation])
    ++ (if (size (set_of_range x) =? size x)%Z then []
        else [ExpectFailure duplicates_expectation])
    ++ map (Diagnostic label)
         (filter (violates x
            (coverage_limit x max_size max_distance max_error tol)) y).
Proof.
  unfold CheckResultSet.
  rewrite !events_bind, events_for_each. reflexivity.
Qed.

(** The returned boolean, as a statement about the two sequences. *)
Lemma CheckResultSet_true_iff x y max_size max_distance max_error tol label :
  value (CheckResultSet x y max_size max_distance max_error tol label) = true
  <->
  forall p, In p y ->
    (fst p <? coverage_limit x max_size max_distance max_error tol) = true ->
    count x p = 1%Z.
Proof.
  rewrite value_CheckResultSet, forallb_forall.
  split; intros Hall p Hp.
  - apply violates_false_iff. apply negb_true_iff. auto.
  - apply negb_true_iff, violates_false_iff. auto.
Qed.

End LoopFacts.

(** ** Machine integers and angles *)

Lemma to_size_t_nonneg z : 0 <= z <= INT_MAX -> to_size_t z = z.
Proof.
  unfold to_size_t, INT_MAX, int_bits, size_t_bits; simpl; intros Hz.
  apply Z.mod_small. lia.
Qed.

(** A negative [int] becomes a value above [SIZE_MAX - 2^31]. *)
Lemma to_size_t_negative z :
  INT_MIN <= z < 0 -> to_size_t z = z + 2 ^ size_t_bits.
Proof.
  unfold to_size_t, INT_MIN, int_bits, size_t_bits; simpl; intros Hz.
  symmetry. apply Z.mod_unique with (q := -1); lia.
Qed.

(** The test [x.size() < max_size], in terms of the signed values. *)
Lemma size_lt_max_size n max_size :
  is_int max_size -> 0 <= n <= vector_max_size ->
  (n <? to_size_t max_size) = true <-> (n < max_size \/ max_size < 0).
Proof.
  unfold is_int; intros [Hlo Hhi] Hn.
  rewrite Z.ltb_lt.
  destruct (Z.neg_nonneg_cases max_size) as [Hneg | Hpos].
  - rewrite to_size_t_negative by lia.
    revert Hlo Hn. unfold INT_MIN, vector_max_size, int_bits, size_t_bits.
    simpl. lia.
  - rewrite to_size_t_nonneg by lia. lia.
Qed.

(** A distance that is at least zero is not below zero. *)
Lemma not_below_Zero (a : S1Angle.t) :
  S1Angle.leb S1Angle.Zero a = true -> S1Angle.ltb a S1Angle.Zero = false.
Proof.
  unfold S1Angle.leb, S1Angle.ltb, S1Angle.Zero; simpl.
  rewrite leb_spec, ltb_spec.
  change (Prim2SF 0%float) with (SpecFloat.S754_zero false).
  destruct (Prim2SF (S1Angle.radians a)) as [s | s | | s m e];
    try destruct s; cbv; congruence.
Qed.

(** ** CheckResultSet *)

Section CheckResultSetFacts.

Context {Id : Type} `{IdOps Id}.
Import S2_internal.
Local Open Scope angle_scope.

Lemma size_range (x : list (Result Id)) : 0 <= size x.
Proof. unfold size. lia. Qed.

Lemma back_app (l : list (Result Id)) p : back (l ++ [p]) = Some p.
Proof.
  induction l as [|q l IH]; [reflexivity|].
  cbn [app back]. rewrite IH.
  destruct l; reflexivity.
Qed.

Lemma back_None (x : list (Result Id)) : back x = None <-> x = [].
Proof.
  split; [|intros ->; reflexivity].
  destruct x as [|p x] using rev_ind; [reflexivity|].
  rewrite back_app. discriminate.
Qed.

(** The uncapped branch. *)
Lemma coverage_limit_uncapped (x : list (Result Id)) max_size
    max_distance max_error tol :
  (size x <? to_size_t max_size)%Z = true ->
  coverage_limit x max_size max_distance max_error tol = max_distance - tol.
Proof. unfold coverage_limit. now intros ->. Qed.

(** The size-capped branch. *)
Lemma coverage_limit_capped (l : list (Result Id)) p max_size
    max_distance max_error tol :
  (size (l ++ [p]) <? to_size_t max_size)%Z = false ->
  coverage_limit (l ++ [p]) max_size max_distance max_error tol
  = fst p - max_error - tol.
Proof. unfold coverage_limit. intros ->. now rewrite back_app. Qed.

(** Neither branch: the limit keeps its initial value. *)
Lemma coverage_limit_empty max_size max_distance max_error tol :
  (0 <? to_size_t max_size)%Z = false ->
  coverage_limit (@nil (Result Id)) max_size max_distance max_error tol
  = S1Angle.Zero.
Proof. unfold coverage_limit, size; simpl. now intros ->. Qed.

End CheckResultSetFacts.

(** ** The coverage limit and the result of one direction *)

Section Direction.

Context {Id : Type} `{IdOps Id}.
Import S2_internal.
Local Open Scope angle_scope.

(** C1 (amended).  For a candidate vector [x] and an [int] [max_size], the
    coverage limit of a direction is [max_distance - max_pruning_error] when
    the length of [x] is less than [max_size] or [max_size] is negative, and
    otherwise, for a non-empty [x], the distance of the last element of [x]
    minus [max_error] minus [max_pruning_error]; the direction returns [true]
    if and only if every pair of [y] whose distance is strictly less than
    that limit occurs exactly once in [x]. *)
Theorem CheckResultSet_limit_and_result
    (x y : list (Result Id)) (max_size : Z)
    (max_distance max_error max_pruning_error : S1Angle.t) (label : string) :
  is_int max_size ->
  size x <= vector_max_size ->
  ((size x < max_size \/ max_size < 0) ->
     coverage_limit x max_size max_distance max_error max_pruning_error
     = max_distance - max_pruning_error)
  /\ (~ (size x < max_size \/ max_size < 0) ->
      forall l p, x = l ++ [p] ->
        coverage_limit x max_size max_distance max_error max_pruning_error
        = fst p - max_error - max_pruning_error)
  /\ (value (CheckResultSet x y max_size max_distance max_error
               max_pruning_error label) = true
      <-> forall p, In p y ->
            (fst p <? coverage_limit x max_size max_distance max_error
                        max_pruning_error) = true ->
            count x p = 1).
Proof.
  intros Hint Hsize.
  pose proof (size_lt_max_size (size x) max_size Hint
                (conj (size_range x) Hsize)) as Hcmp.
  repeat split.
  - intros Hlt. apply coverage_limit_uncapped. now apply Hcmp.
  - intros Hge l p ->. apply coverage_limit_capped.
    apply not_true_is_false. intros Hlt. apply Hge. now apply Hcmp.
  - now apply CheckResultSet_true_iff.
  - now apply CheckResultSet_true_iff.
Qed.

(** C9.  A negative [max_size] is converted to a [size_t] of at least
    [2^64 - 2^31], the test [x.size() < max_size] succeeds for every vector
    [x], and the coverage limit is [max_distance - max_pruning_error]. *)
Theorem negative_max_size_is_unlimited
    (x : list (Result Id)) (max_size : Z)
    (max_distance max_error max_pruning_error : S1Angle.t) :
  is_int max_size ->
  max_size < 0 ->
  size x <= vector_max_size ->
  (SIZE_MAX - 2 ^ (int_bits - 1) < to_size_t max_size)%Z
  /\ (size x <? to_size_t max_size)%Z = true
  /\ coverage_limit x max_size max_distance max_error max_pruning_error
     = max_distance - max_pruning_error.
Proof.
  intros Hint Hneg Hsize.
  assert (Hlt : (size x <? to_size_t max_size)%Z = true).
  { apply size_lt_max_size; auto. split; auto using size_range. }
  repeat split; auto using coverage_limit_uncapped.
  destruct Hint as [Hlo _].
  rewrite to_size_t_negative by lia.
  revert Hlo. unfold SIZE_MAX, INT_MIN, int_bits, size_t_bits. simpl. lia.
Qed.

(** C8.  With [max_size = 0] and an empty [x] the coverage limit stays at
    zero radians, and the direction returns [true] (and reports nothing) for
    every [y] whose distances are all at least zero. *)
Theorem zero_max_size_empty_candidates
    (y : list (Result Id))
    (max_distance max_error max_pruning_error : S1Angle.t) (label : string) :
  (forall p, In p y -> (S1Angle.Zero <=? fst p) = true) ->
  coverage_limit (@nil (Result Id)) 0 max_distance max_error max_pruning_error
  = S1Angle.Zero
  /\ CheckResultSet [] y 0 max_distance max_error max_pruning_error label
     = (true, []).
Proof.
  intros Hnonneg.
  assert (Hlimit :
    coverage_limit (@nil (Result Id)) 0 max_distance max_error
      max_pruning_error = S1Angle.Zero) by reflexivity.
  split; [exact Hlimit|].
  assert (Hnone : forall p, In p y -> violates [] S1Angle.Zero p = false).
  { intros p Hp. unfold violates.
    now rewrite (not_below_Zero (fst p) (Hnonneg p Hp)). }
  rewrite (surjective_pairing (CheckResultSet _ _ _ _ _ _ _)).
  fold (value (CheckResultSet [] y 0 max_distance max_error
                 max_pruning_error label)).
  fold (events (CheckResultSet [] y 0 max_distance max_error
                  max_pruning_error label)).
  rewrite value_CheckResultSet, events_CheckResultSet, Hlimit.
  f_equal.
  - apply forallb_forall. intros p Hp. now rewrite Hnone.
  - simpl.
    replace (filter (violates [] S1Angle.Zero) y) with (@nil (Result Id));
      [reflexivity|].
    symmetry. clear Hnonneg Hlimit.
    induction y as [|p y IH]; [reflexivity|].
    simpl. rewrite Hnone by (now left).
    apply IH. intros q Hq. apply Hnone. now right.
Qed.

End Direction.

(** ** CheckDistanceResults *)

Section BothDirections.

Context {Id : Type} `{IdOps Id}.
Import S2_internal.
Local Open Scope angle_scope.

Lemma value_bitand order (a b : Test Id bool) :
  value (bitand order a b) = value a && value b.
Proof.
  destruct order; unfold bitand; autorewrite with test_log; reflexivity.
Qed.

Lemma events_bitand order (a b : Test Id bool) :
  events (bitand order a b)
  = match order with
    | LeftFirst => events a ++ events b
    | RightFirst => events b ++ events a
    end.
Proof.
  destruct order; unfold bitand; autorewrite with test_log;
    now rewrite app_nil_r.
Qed.

Lemma In_events_bitand order (a b : Test Id bool) e :
  In e (events (bitand order a b)) <-> In e (events a) \/ In e (events b).
Proof.
  rewrite events_bitand. destruct order; rewrite in_app_iff; tauto.
Qed.

(** C2.  [CheckDistanceResults] returns the conjunction of the "Missing"
    direction (candidates [actual], tolerance [1e-15] radians) and the
    "Extra" direction (candidates [expected], tolerance zero); whatever the
    first returns, the second is evaluated too, and the log holds the events
    of both, in the order in which the two calls ran. *)
Theorem CheckDistanceResults_both_directions
    (order : EvalOrder) (expected actual : list (Result Id)) (max_size : Z)
    (max_distance max_error : S1Angle.t) :
  value (CheckDistanceResults order expected actual max_size max_distance
           max_error)
  = value (CheckResultSet actual expected max_size max_distance max_error
             (S1Angle.Radians 0x1.203af9ee75616p-50%float) "Missing")
    && value (CheckResultSet expected actual max_size max_distance max_error
                S1Angle.Zero "Extra")
  /\ events (CheckDistanceResults order expected actual max_size max_distance
               max_error)
     = match order with
       | LeftFirst =>
           events (CheckResultSet actual expected max_size max_distance
                     max_error (S1Angle.Radians 0x1.203af9ee75616p-50%float)
                     "Missing")
           ++ events (CheckResultSet expected actual max_size max_distance
                        max_error S1Angle.Zero "Extra")
       | RightFirst =>
           events (CheckResultSet expected actual max_size max_distance
                     max_error S1Angle.Zero "Extra")
           ++ events (CheckResultSet actual expected max_size max_distance
                        max_error (S1Angle.Radians 0x1.203af9ee75616p-50%float)
                        "Missing")
       end.
Proof.
  unfold CheckDistanceResults.
  rewrite value_bitand, events_bitand.
  split; [reflexivity | destruct order; reflexivity].
Qed.

(** The returned boolean, as a statement about [expected] and [actual]. *)
Lemma CheckDistanceResults_true_iff order (expected actual : list (Result Id))
    max_size max_distance max_error :
  value (CheckDistanceResults order expected actual max_size max_distance
           max_error) = true
  <->
  (forall p, In p expected ->
     (fst p <? coverage_limit actual max_size max_distance max_error
                 kMaxPruningError) = true ->
     count actual p = 1)
  /\ (forall p, In p actual ->
        (fst p <? coverage_limit expected max_size max_distance max_error
                    S1Angle.Zero) = true ->
        count expected p = 1).
Proof.
  unfold CheckDistanceResults, Missing_check, Extra_check.
  rewrite value_bitand, andb_true_iff, !CheckResultSet_true_iff.
  reflexivity.
Qed.

End BothDirections.

(** ** The documented examples *)

Section DocumentedExamples.

Import S2_internal.
Local Open Scope string_scope.

(** C5.  With [expected = [(1 deg, a); (2 deg, b); (3 deg, c)]],
    [actual = [(1 deg, a); (2 deg, b)]], [max_size = 2],
    [max_distance = 10 deg] and [max_error = 0], [CheckDistanceResults]
    returns [true], and nothing is reported. *)
Theorem truncated_at_size_cap_passes (order : EvalOrder) :
  CheckDistanceResults order
    [(S1Angle.Degrees 1, "a"); (S1Angle.Degrees 2, "b");
     (S1Angle.Degrees 3, "c")]
    [(S1Angle.Degrees 1, "a"); (S1Angle.Degrees 2, "b")]
    2 (S1Angle.Degrees 10) (S1Angle.Degrees 0)
  = (true, []).
Proof. destruct order; vm_compute; reflexivity. Qed.

(** C6.  With the same [expected] and [actual = [(1 deg, a); (3 deg, c)]],
    [CheckDistanceResults] returns [false], and the one diagnostic written
    is the "Missing" line for the pair [(2 deg, b)]. *)
Theorem missing_within_limit_fails (order : EvalOrder) :
  CheckDistanceResults order
    [(S1Angle.Degrees 1, "a"); (S1Angle.Degrees 2, "b");
     (S1Angle.Degrees 3, "c")]
    [(S1Angle.Degrees 1, "a"); (S1Angle.Degrees 3, "c")]
    2 (S1Angle.Degrees 10) (S1Angle.Degrees 0)
  = (false, [Diagnostic "Missing" (S1Angle.Degrees 2, "b")]).
Proof. destruct order; vm_compute; reflexivity. Qed.

End DocumentedExamples.

(** ** The order of binary64 values *)

Module FloatOrder.

Import SpecFloat.

Lemma SFcompare_finite s1 m1 e1 s2 m2 e2 :
  SFcompare (S754_finite s1 m1 e1) (S754_finite s2 m2 e2)
  = Some match s1, s2 with
         | true, false => Lt
         | false, true => Gt
         | false, false =>
             match Z.compare e1 e2 with
             | Lt => Lt
             | Gt => Gt
             | Eq => Pos.compare m1 m2
             end
         | true, true =>
             match Z.compare e1 e2 with
             | Lt => Gt
             | Gt => Lt
             | Eq => CompOpp (Pos.compare m1 m2)
             end
         end.
Proof. reflexivity. Qed.

Ltac compare_cases :=
  repeat match goal with
    | |- context [Z.compare ?a ?b] => destruct (Z.compare_spec a b)
    | |- context [Pos.compare ?a ?b] => destruct (Pos.compare_spec a b)
    | H : context [Z.compare ?a ?b] |- _ => destruct (Z.compare_spec a b)
    | H : context [Pos.compare ?a ?b] |- _ => destruct (Pos.compare_spec a b)
    end;
  simpl in *; try congruence; try lia.

Ltac float_cases a b c :=
  destruct a as [[]|[]| |[] ? ?], b as [[]|[]| |[] ? ?],
           c as [[]|[]| |[] ? ?];
  try (simpl; (congruence || tauto));
  rewrite ?SFcompare_finite; try (simpl; (congruence || tauto));
  compare_cases; auto.

Lemma SFltb_irrefl a : SFltb a a = false.
Proof.
  unfold SFltb.
  destruct a as [[]|[]| |[] m e]; try reflexivity;
    rewrite SFcompare_finite; compare_cases.
Qed.

Lemma SFltb_trans a b c :
  SFltb a b = true -> SFltb b c = true -> SFltb a c = true.
Proof. unfold SFltb. float_cases a b c. Qed.

Lemma SFltb_cotrans a b c :
  b <> S754_nan ->
  SFltb a c = true -> SFltb a b = true \/ SFltb b c = true.
Proof. unfold SFltb. intros Hb. float_cases a b c. Qed.

Lemma SFeqb_refl_number a : SFeqb a a = true -> a <> S754_nan.
Proof. intros Heq ->. discriminate. Qed.

End FloatOrder.

Section AngleOrder.

Local Open Scope angle_scope.

Lemma is_number_not_nan a :
  S1Angle.is_number a = true ->
  Prim2SF (S1Angle.radians a) <> SpecFloat.S754_nan.
Proof.
  unfold S1Angle.is_number, S1Angle.eqb. rewrite eqb_spec.
  apply FloatOrder.SFeqb_refl_number.
Qed.

Lemma angle_ltb_irrefl a : (a <? a) = false.
Proof.
  unfold S1Angle.ltb. rewrite ltb_spec. apply FloatOrder.SFltb_irrefl.
Qed.

Lemma angle_ltb_trans a b c :
  (a <? b) = true -> (b <? c) = true -> (a <? c) = true.
Proof.
  unfold S1Angle.ltb. rewrite !ltb_spec. apply FloatOrder.SFltb_trans.
Qed.

Lemma angle_ltb_cotrans a b c :
  S1Angle.is_number b = true ->
  (a <? c) = true -> (a <? b) = true \/ (b <? c) = true.
Proof.
  intros Hb. unfold S1Angle.ltb. rewrite !ltb_spec.
  apply FloatOrder.SFltb_cotrans. now apply is_number_not_nan.
Qed.

Lemma angle_ltb_asym a b : (a <? b) = true -> (b <? a) = false.
Proof.
  intros Hab. apply not_true_is_false. intros Hba.
  pose proof (angle_ltb_trans _ _ _ Hab Hba) as Haa.
  rewrite angle_ltb_irrefl in Haa. discriminate.
Qed.

End AngleOrder.

(** ** Identifier types *)

#[export] Instance string_IdLaws : IdLaws string.
Proof.
  assert (Hlt : forall a b, String.ltb a b = true <-> String_as_OT.lt a b).
  { intros a b. rewrite <- String_as_OT.cmp_lt.
    unfold String.ltb, String_as_OT.cmp.
    destruct (String.compare a b); split; congruence. }
  constructor; simpl.
  - intros a. apply not_true_is_false. rewrite Hlt. intros Ha.
    now apply (String_as_OT.lt_not_eq a a Ha).
  - intros a b c. rewrite !Hlt. apply String_as_OT.lt_trans.
  - intros a b c. rewrite !Hlt. intros Hac.
    destruct (String_as_OT.compare a b) as [Hab | Hab | Hab].
    + now left.
    + right. now rewrite <- Hab.
    + right. eapply String_as_OT.lt_trans; eassumption.
Qed.

#[export] Instance Z_IdLaws : IdLaws Z.
Proof.
  constructor; simpl; intros *; rewrite ?Z.ltb_lt, ?Z.ltb_irrefl; auto; lia.
Qed.

(** ** The order of pairs *)

Section PairOrder.

Context {Id : Type} `{IdLaws Id}.
Import S2_internal.
Local Open Scope angle_scope.

Implicit Types p q r : Result Id.

Lemma pair_ltb_true p q :
  pair_ltb p q = true <->
  (fst p <? fst q) = true
  \/ ((fst q <? fst p) = false /\ id_ltb (snd p) (snd q) = true).
Proof.
  unfold pair_ltb.
  now rewrite orb_true_iff, andb_true_iff, negb_true_iff.
Qed.

Lemma pair_ltb_irrefl p : pair_ltb p p = false.
Proof.
  unfold pair_ltb. now rewrite angle_ltb_irrefl, id_ltb_irrefl.
Qed.

Lemma pair_ltb_trans p q r :
  S1Angle.is_number (fst p) = true ->
  S1Angle.is_number (fst q) = true ->
  S1Angle.is_number (fst r) = true ->
  pair_ltb p q = true -> pair_ltb q r = true -> pair_ltb p r = true.
Proof.
  intros Np Nq Nr. rewrite !pair_ltb_true.
  intros [Hpq | [Hqp Hid1]] [Hqr | [Hrq Hid2]].
  - left. eauto using angle_ltb_trans.
  - left. destruct (angle_ltb_cotrans _ (fst r) _ Nr Hpq); congruence.
  - left. destruct (angle_ltb_cotrans _ (fst p) _ Np Hqr); congruence.
  - right. split; [|eauto using id_ltb_trans].
    apply not_true_is_false. intros Hrp.
    destruct (angle_ltb_cotrans _ (fst q) _ Nq Hrp); congruence.
Qed.

Lemma pair_ltb_cotrans p q r :
  S1Angle.is_number (fst p) = true ->
  S1Angle.is_number (fst q) = true ->
  S1Angle.is_number (fst r) = true ->
  pair_ltb p r = true -> pair_ltb p q = true \/ pair_ltb q r = true.
Proof.
  intros Np Nq Nr. rewrite !pair_ltb_true.
  intros [Hpr | [Hrp Hid]].
  - destruct (angle_ltb_cotrans _ (fst q) _ Nq Hpr); auto.
  - destruct (id_ltb_cotrans _ (snd q) _ Hid) as [Hid1 | Hid2].
    + destruct (fst q <? fst p) eqn:Hqp; [|now auto].
      right. left.
      destruct (angle_ltb_cotrans _ (fst r) _ Nr Hqp); congruence.
    + destruct (fst r <? fst q) eqn:Hrq; [|now auto].
      left. left.
      destruct (angle_ltb_cotrans _ (fst p) _ Np Hrq); congruence.
Qed.

Lemma equivalent_refl p : equivalent p p = true.
Proof. unfold equivalent. now rewrite pair_ltb_irrefl. Qed.

Lemma equivalent_true p q :
  equivalent p q = true <-> pair_ltb p q = false /\ pair_ltb q p = false.
Proof.
  unfold equivalent. now rewrite andb_true_iff, !negb_true_iff.
Qed.

End PairOrder.

(** ** The set of keys *)

Section SetFacts.

Context {Id : Type} `{IdLaws Id}.
Import S2_internal.
Local Open Scope angle_scope.

Implicit Types p q : Result Id.
Implicit Types s l : list (Result Id).

Lemma distances_are_numbers_cons p l :
  distances_are_numbers (p :: l) <->
  S1Angle.is_number (fst p) = true /\ distances_are_numbers l.
Proof.
  unfold distances_are_numbers; simpl. split.
  - intros Hall. split; [apply Hall; now left|].
    intros q Hq. apply Hall. now right.
  - intros [Hp Hl] q [<- | Hq]; auto.
Qed.

Lemma distances_are_numbers_app l1 l2 :
  distances_are_numbers (l1 ++ l2) <->
  distances_are_numbers l1 /\ distances_are_numbers l2.
Proof.
  unfold distances_are_numbers. split.
  - intros Hall. split; intros q Hq; apply Hall, in_app_iff; auto.
  - intros [H1 H2] q Hq. apply in_app_iff in Hq as [Hq | Hq]; auto.
Qed.

Lemma In_set_insert q p s : In q (set_insert p s) -> q = p \/ In q s.
Proof.
  induction s as [|h s IH]; simpl.
  - intros [<- | []]. now left.
  - destruct (pair_ltb p h); [|destruct (pair_ltb h p)]; simpl.
    + intros [<- | Hq]; auto.
    + intros [<- | Hq]; auto. destruct (IH Hq); auto.
    + auto.
Qed.

Lemma In_set_insert_old q p s : In q s -> In q (set_insert p s).
Proof.
  induction s as [|h s IH]; simpl; [tauto|].
  destruct (pair_ltb p h); [|destruct (pair_ltb h p)]; simpl; tauto.
Qed.

Lemma length_set_insert p s :
  (List.length (set_insert p s) <= S (List.length s))%nat.
Proof.
  induction s as [|h s IH]; simpl; [lia|].
  destruct (pair_ltb p h); [|destruct (pair_ltb h p)]; simpl; lia.
Qed.

Lemma set_insert_numbers p s :
  S1Angle.is_number (fst p) = true ->
  distances_are_numbers s -> distances_are_numbers (set_insert p s).
Proof.
  intros Np Ns q Hq. destruct (In_set_insert _ _ _ Hq) as [-> | Hin]; auto.
Qed.

Lemma set_insert_ascending p s :
  S1Angle.is_number (fst p) = true -> distances_are_numbers s ->
  ascending s -> ascending (set_insert p s).
Proof.
  intros Np. unfold ascending.
  induction s as [|h s IH]; intros Ns Hs; simpl.
  - repeat constructor.
  - apply distances_are_numbers_cons in Ns as [Nh Ns].
    inversion Hs as [|? ? Hs' Hh]; subst.
    destruct (pair_ltb p h) eqn:Hph; [|destruct (pair_ltb h p) eqn:Hhp].
    + constructor; [assumption|].
      constructor; [assumption|].
      rewrite Forall_forall in *. intros q Hq.
      eapply pair_ltb_trans with (q := h); eauto.
    + constructor; [now apply IH|].
      rewrite Forall_forall in *. intros q Hq.
      destruct (In_set_insert _ _ _ Hq) as [-> | Hin]; auto.
    + assumption.
Qed.

(** Inserting a key that has an equivalent in the set leaves the set as it
    is. *)
Lemma set_insert_present p q s :
  S1Angle.is_number (fst p) = true -> distances_are_numbers s ->
  ascending s -> In q s -> equivalent p q = true ->
  set_insert p s = s.
Proof.
  intros Np Ns Hs Hq Heq. apply equivalent_true in Heq as [Hpq Hqp].
  unfold ascending in Hs.
  induction s as [|h s IH]; [contradiction|].
  apply distances_are_numbers_cons in Ns as [Nh Ns].
  inversion Hs as [|? ? Hs' Hh]; subst. rewrite Forall_forall in Hh.
  simpl. destruct Hq as [-> | Hq].
  - now rewrite Hpq, Hqp.
  - pose proof (Hh q Hq) as Hhq.
    assert (Nq : S1Angle.is_number (fst q) = true) by auto.
    assert (Hph : pair_ltb p h = false).
    { apply not_true_is_false. intros Hph.
      pose proof (pair_ltb_trans _ _ _ Np Nh Nq Hph Hhq). congruence. }
    assert (Hhp : pair_ltb h p = true).
    { destruct (pair_ltb_cotrans _ p _ Nh Np Nq Hhq); congruence. }
    rewrite Hph, Hhp. f_equal. now apply IH.
Qed.

(** After an insertion the set holds a key equivalent to the inserted
    one. *)
Lemma set_insert_equivalent p s :
  exists q, In q (set_insert p s) /\ equivalent p q = true.
Proof.
  induction s as [|h s IH]; simpl.
  - exists p. split; [now left | apply equivalent_refl].
  - destruct (pair_ltb p h) eqn:Hph; [|destruct (pair_ltb h p) eqn:Hhp].
    + exists p. split; [now left | apply equivalent_refl].
    + destruct IH as (q & Hq & Heq). exists q. split; [now right | assumption].
    + exists h. split; [now left|]. apply equivalent_true. auto.
Qed.

(** The set built by inserting the elements of [l] into [s]. *)
Lemma set_fold_invariant l : forall s,
  distances_are_numbers l -> distances_are_numbers s -> ascending s ->
  let s' := fold_left (fun s p => set_insert p s) l s in
  distances_are_numbers s' /\ ascending s'
  /\ (List.length s' <= List.length l + List.length s)%nat
  /\ (forall q, In q s -> In q s').
Proof.
  induction l as [|p l IH]; intros s Nl Ns Hs; simpl.
  - repeat split; auto.
  - apply distances_are_numbers_cons in Nl as [Np Nl].
    destruct (IH (set_insert p s) Nl) as (N' & A' & L' & I');
      auto using set_insert_numbers, set_insert_ascending.
    repeat split; auto.
    + pose proof (length_set_insert p s). simpl in *. lia.
    + intros q Hq. apply I'. now apply In_set_insert_old.
Qed.

(** A sequence with a duplicate gives a set with fewer keys than the
    sequence has elements. *)
Lemma set_of_range_duplicate x :
  distances_are_numbers x -> has_duplicate x ->
  size (set_of_range x) < size x.
Proof.
  intros Nx (l1 & p & l2 & l3 & ->).
  apply distances_are_numbers_app in Nx as [N1 Nx].
  apply distances_are_numbers_cons in Nx as [Np Nx].
  apply distances_are_numbers_app in Nx as [N2 Nx].
  apply distances_are_numbers_cons in Nx as [_ N3].
  unfold set_of_range, size.
  rewrite fold_left_app; simpl. rewrite fold_left_app; simpl.
  assert (Hnil : distances_are_numbers (@nil (Result Id))) by (intros ? []).
  destruct (set_fold_invariant l1 [] N1 Hnil) as (Na & Aa & La & _);
    [constructor|].
  set (s1 := fold_left _ l1 []) in *.
  destruct (set_insert_equivalent p s1) as (q & Hq & Heq).
  pose proof (length_set_insert p s1) as Lb.
  destruct (set_fold_invariant l2 (set_insert p s1) N2) as (Nc & Ac & Lc & Ic);
    auto using set_insert_numbers, set_insert_ascending.
  set (s3 := fold_left _ l2 (set_insert p s1)) in *.
  rewrite (set_insert_present p q s3) by auto.
  destruct (set_fold_invariant l3 s3 N3 Nc Ac) as (_ & _ & Ld & _).
  cbv zeta in *.
  rewrite !length_app; simpl. rewrite length_app; simpl. simpl in La. lia.
Qed.

Lemma set_of_range_size_le x : size (set_of_range x) <= size x.
Proof.
  unfold set_of_range, size.
  assert (Hgen : forall l s,
    (List.length (fold_left (fun s p => set_insert p s) l s)
     <= List.length l + List.length s)%nat).
  { induction l as [|p l IH]; intros s; simpl; [lia|].
    specialize (IH (set_insert p s)).
    pose proof (length_set_insert p s). lia. }
  specialize (Hgen x []). simpl in Hgen. lia.
Qed.

End SetFacts.

(** ** Sortedness *)

Section SortedFacts.

Context {Id : Type} `{IdOps Id}.
Import S2_internal.
Local Open Scope angle_scope.

Lemma is_sorted_cons comp (a : Result Id) l :
  is_sorted comp l = false -> is_sorted comp (a :: l) = false.
Proof.
  intros Hl. cbn [is_sorted]. destruct l as [|b l]; [discriminate|].
  rewrite Hl. apply andb_false_r.
Qed.

(** An element smaller than its predecessor is found by [is_sorted]. *)
Lemma is_sorted_adjacent comp l1 (a b : Result Id) l3 :
  comp b a = true -> is_sorted comp (l1 ++ a :: b :: l3) = false.
Proof.
  intros Hba. induction l1 as [|c l1 IH].
  - cbn [app is_sorted]. now rewrite Hba.
  - rewrite <- app_comm_cons. now apply is_sorted_cons.
Qed.

(** So is, when no distance is a NaN, an element smaller than any earlier
    one. *)
Lemma out_of_order_not_sorted (x : list (Result Id)) :
  distances_are_numbers x -> out_of_order x ->
  is_sorted CompareFirst x = false.
Proof.
  intros Nx (l1 & a & l2 & b & l3 & -> & Hba).
  revert l1 a Nx Hba.
  induction l2 as [|c l2 IH]; intros l1 a Nx Hba.
  - now apply is_sorted_adjacent.
  - assert (Nc : S1Angle.is_number (fst c) = true).
    { apply Nx. rewrite in_app_iff. right. right. now left. }
    destruct (angle_ltb_cotrans _ (fst c) _ Nc Hba) as [Hbc | Hca].
    + replace (l1 ++ a :: (c :: l2) ++ b :: l3)
        with ((l1 ++ [a]) ++ c :: l2 ++ b :: l3)
        by (now rewrite <- app_assoc).
      apply IH; [|assumption].
      now rewrite <- app_assoc.
    + now apply is_sorted_adjacent.
Qed.

End SortedFacts.

(** ** What the expectations report, and what is returned *)

Section Expectations.

Context {Id : Type} `{IdLaws Id}.
Import S2_internal.
Local Open Scope angle_scope.

Lemma duplicates_reported (x y : list (Result Id)) max_size max_distance
    max_error tol label :
  distances_are_numbers x -> has_duplicate x ->
  In (ExpectFailure duplicates_expectation)
     (events (CheckResultSet x y max_size max_distance max_error tol label)).
Proof.
  intros Nx Hdup. rewrite events_CheckResultSet.
  pose proof (set_of_range_duplicate x Nx Hdup) as Hlt.
  apply Z.lt_neq, Z.eqb_neq in Hlt. rewrite Hlt.
  rewrite !in_app_iff. right. left. now left.
Qed.

Lemma disorder_reported (x y : list (Result Id)) max_size max_distance
    max_error tol label :
  distances_are_numbers x -> out_of_order x ->
  In (ExpectFailure sorted_expectation)
     (events (CheckResultSet x y max_size max_distance max_error tol label)).
Proof.
  intros Nx Hx. rewrite events_CheckResultSet.
  rewrite (out_of_order_not_sorted x Nx Hx).
  rewrite !in_app_iff. left. now left.
Qed.

(** C3 (amended).  If the candidate sequence of a direction ([actual] for
    "Missing", [expected] for "Extra") contains a duplicate pair, no distance
    being a NaN, the no-duplicates expectation of that direction fails: the
    non-fatal test failure "Result set contains duplicates" is recorded.
    The boolean returned by [CheckDistanceResults] does not depend on that
    expectation: it is [true] exactly when, in each direction, every pair of
    the reference sequence below the coverage limit occurs exactly once in
    the candidate sequence. *)
Theorem duplicates_are_reported_by_expectation
    (order : EvalOrder) (expected actual x : list (Result Id)) (max_size : Z)
    (max_distance max_error : S1Angle.t) :
  x = actual \/ x = expected ->
  distances_are_numbers x ->
  has_duplicate x ->
  In (ExpectFailure duplicates_expectation)
     (events (CheckDistanceResults order expected actual max_size
                max_distance max_error))
  /\ (value (CheckDistanceResults order expected actual max_size
               max_distance max_error) = true
      <->
      (forall p, In p expected ->
         (fst p <? coverage_limit actual max_size max_distance max_error
                     kMaxPruningError) = true ->
         count actual p = 1)
      /\ (forall p, In p actual ->
            (fst p <? coverage_limit expected max_size max_distance
                        max_error S1Angle.Zero) = true ->
            count expected p = 1)).
Proof.
  intros Hx Nx Hdup. split; [|apply CheckDistanceResults_true_iff].
  unfold CheckDistanceResults. apply In_events_bitand.
  destruct Hx as [-> | ->]; [left | right]; now apply duplicates_reported.
Qed.

(** C4 (amended).  If the candidate sequence of a direction is not sorted
    by ascending distance (some element has a smaller distance than an
    earlier one, no distance being a NaN), the sortedness expectation of
    that direction fails: a non-fatal test failure is recorded.  The boolean
    returned by [CheckDistanceResults] does not depend on that expectation:
    it is [true] exactly when, in each direction, every pair of the
    reference sequence below the coverage limit occurs exactly once in the
    candidate sequence. *)
Theorem disorder_is_reported_by_expectation
    (order : EvalOrder) (expected actual x : list (Result Id)) (max_size : Z)
    (max_distance max_error : S1Angle.t) :
  x = actual \/ x = expected ->
  distances_are_numbers x ->
  out_of_order x ->
  In (ExpectFailure sorted_expectation)
     (events (CheckDistanceResults order expected actual max_size
                max_distance max_error))
  /\ (value (CheckDistanceResults order expected actual max_size
               max_distance max_error) = true
      <->
      (forall p, In p expected ->
         (fst p <? coverage_limit actual max_size max_distance max_error
                     kMaxPruningError) = true ->
         count actual p = 1)
      /\ (forall p, In p actual ->
            (fst p <? coverage_limit expected max_size max_distance
                        max_error S1Angle.Zero) = true ->
            count expected p = 1)).
Proof.
  intros Hx Nx Hdis. split; [|apply CheckDistanceResults_true_iff].
  unfold CheckDistanceResults. apply In_events_bitand.
  destruct Hx as [-> | ->]; [left | right]; now apply disorder_reported.
Qed.

End Expectations.

(** ** A pair repeated in [actual] *)

Section RepeatedPair.

Context {Id : Type} `{IdOps Id}.
Import S2_internal.
Local Open Scope angle_scope.

Lemma count_nonneg (x : list (Result Id)) p : 0 <= count x p.
Proof.
  induction x as [|e x IH]; simpl; [lia|].
  destruct (pair_eqb e p); lia.
Qed.

(** C10 (amended).  Let the pair [p] occur at least twice in [actual].  If
    [p] occurs in [expected] with a distance strictly below the coverage
    limit of the "Missing" direction (computed from [actual] as it is, the
    repetition included), the exactly-once count fails, and the "Missing"
    direction and [CheckDistanceResults] return [false].  When no pair of
    [expected] below that limit occurs more than once in [actual], the
    "Missing" direction returns what the plain membership test returns.  The
    boolean of the "Extra" direction depends only on which pairs occur in
    [actual], not on how often. *)
Theorem repeated_pair_in_actual
    (order : EvalOrder) (expected actual : list (Result Id)) (max_size : Z)
    (max_distance max_error : S1Angle.t) (p : Result Id) :
  2 <= count actual p ->
  (In p expected ->
   (fst p <? coverage_limit actual max_size max_distance max_error
               kMaxPruningError) = true ->
   value (Missing_check expected actual max_size max_distance max_error)
   = false
   /\ value (CheckDistanceResults order expected actual max_size
               max_distance max_error) = false)
  /\ ((forall q, In q expected ->
         (fst q <? coverage_limit actual max_size max_distance max_error
                     kMaxPruningError) = true ->
         count actual q <= 1) ->
      (value (Missing_check expected actual max_size max_distance max_error)
       = true
       <-> forall q, In q expected ->
             (fst q <? coverage_limit actual max_size max_distance max_error
                         kMaxPruningError) = true ->
             1 <= count actual q))
  /\ (forall actual', (forall q, In q actual' <-> In q actual) ->
      value (Extra_check expected actual' max_size max_distance max_error)
      = value (Extra_check expected actual max_size max_distance max_error)).
Proof.
  intros Htwice. unfold Missing_check, Extra_check.
  split; [|split].
  - intros Hin Hlt.
    assert (Hmissing :
      value (CheckResultSet actual expected max_size max_distance max_error
               kMaxPruningError "Missing") = false).
    { apply not_true_is_false. rewrite CheckResultSet_true_iff.
      intros Hall. specialize (Hall p Hin Hlt). lia. }
    split; [exact Hmissing|].
    unfold CheckDistanceResults, Missing_check.
    now rewrite value_bitand, Hmissing.
  - intros Honce. rewrite CheckResultSet_true_iff.
    split; intros Hall q Hq Hlt.
    + rewrite (Hall q Hq Hlt). lia.
    + specialize (Honce q Hq Hlt). specialize (Hall q Hq Hlt). lia.
  - intros actual' Hsame. apply eq_iff_eq_true.
    rewrite !CheckResultSet_true_iff.
    split; intros Hall q Hq; apply Hall; now apply Hsame.
Qed.

End RepeatedPair.

(** ** Concrete runs *)

Section Runs.

Import S2_internal Examples.
Local Open Scope string_scope.
Local Open Scope angle_scope.

Lemma example_numbers (x : list (Result string)) :
  forallb (fun p => S1Angle.is_number (fst p)) x = true ->
  distances_are_numbers x.
Proof. intros Hall p Hp. now apply (proj1 (forallb_forall _ _) Hall). Defined.

(** The limit and the result of the "Missing" direction on a truncated
    [actual]. *)
Lemma CheckResultSet_limit_and_result_run :
  is_int 2
  /\ (size truncated <= vector_max_size)%Z
  /\ coverage_limit truncated 2 (S1Angle.Degrees 10) (S1Angle.Degrees 0)
       kMaxPruningError
     = S1Angle.Degrees 2 - S1Angle.Degrees 0 - kMaxPruningError.
Proof.
  assert (Hint : is_int 2) by (unfold is_int; cbv; split; discriminate).
  assert (Hsize : (size truncated <= vector_max_size)%Z)
    by (cbv; discriminate).
  split; [exact Hint|]. split; [exact Hsize|].
  refine (proj1 (proj2 (CheckResultSet_limit_and_result truncated expected 2
            (S1Angle.Degrees 10) (S1Angle.Degrees 0) kMaxPruningError
            "Missing" Hint Hsize)) _ [(S1Angle.Degrees 1, "a")]
            (S1Angle.Degrees 2, "b") eq_refl).
  cbv. intros [Hlt | Hneg]; discriminate.
Defined.

(** With [max_size = -1] the specified limit is the distance of the last
    candidate, below which [y] has no pair, while the code takes
    [max_distance] as the limit and returns [false]. *)
Lemma negative_max_size_departs_from_specified_limit :
  specified_limit single (-1) (S1Angle.Degrees 10) (S1Angle.Degrees 0)
    S1Angle.Zero
  = Some (S1Angle.Degrees 1 - S1Angle.Degrees 0 - S1Angle.Zero)
  /\ (forall p, In p farther ->
        (fst p <? S1Angle.Degrees 1 - S1Angle.Degrees 0 - S1Angle.Zero)
        = true ->
        count single p = 1%Z)
  /\ coverage_limit single (-1) (S1Angle.Degrees 10) (S1Angle.Degrees 0)
       S1Angle.Zero
     = S1Angle.Degrees 10 - S1Angle.Zero
  /\ value (CheckResultSet single farther (-1) (S1Angle.Degrees 10)
              (S1Angle.Degrees 0) S1Angle.Zero "Extra") = false.
Proof.
  repeat split; try (vm_compute; reflexivity).
  intros p [<- | []]. vm_compute. discriminate.
Qed.

(** A negative size cap on the documented [actual]. *)
Lemma negative_max_size_is_unlimited_run :
  is_int (-1) /\ (-1 < 0)%Z /\ (size truncated <= vector_max_size)%Z
  /\ coverage_limit truncated (-1) (S1Angle.Degrees 10) (S1Angle.Degrees 0)
       kMaxPruningError
     = S1Angle.Degrees 10 - kMaxPruningError.
Proof.
  assert (Hint : is_int (-1)) by (unfold is_int; cbv; split; discriminate).
  assert (Hneg : (-1 < 0)%Z) by reflexivity.
  assert (Hsize : (size truncated <= vector_max_size)%Z)
    by (cbv; discriminate).
  repeat (split; [assumption|]).
  exact (proj2 (proj2 (negative_max_size_is_unlimited truncated (-1)
           (S1Angle.Degrees 10) (S1Angle.Degrees 0) kMaxPruningError
           Hint Hneg Hsize))).
Defined.

(** A zero size cap and no candidates, against the documented
    [expected]. *)
Lemma zero_max_size_empty_candidates_run :
  (forall p, In p expected -> (S1Angle.Zero <=? fst p) = true)
  /\ CheckResultSet [] expected 0 (S1Angle.Degrees 10) (S1Angle.Degrees 0)
       kMaxPruningError "Missing"
     = (true, []).
Proof.
  assert (Hnonneg :
    forall p, In p expected -> (S1Angle.Zero <=? fst p) = true).
  { intros p [<- | [<- | [<- | []]]]; reflexivity. }
  split; [exact Hnonneg|].
  exact (proj2 (zero_max_size_empty_candidates expected (S1Angle.Degrees 10)
           (S1Angle.Degrees 0) kMaxPruningError "Missing" Hnonneg)).
Defined.

(** A doubled [actual] that passes: the duplicate is reported by the
    expectation only. *)
Lemma doubled_actual_returns_true :
  has_duplicate doubled
  /\ CheckDistanceResults LeftFirst single doubled 1 (S1Angle.Degrees 10)
       (S1Angle.Degrees 0)
     = (true, [ExpectFailure duplicates_expectation])
  /\ CheckDistanceResults RightFirst single doubled 1 (S1Angle.Degrees 10)
       (S1Angle.Degrees 0)
     = (true, [ExpectFailure duplicates_expectation]).
Proof.
  split; [|split; vm_compute; reflexivity].
  now exists [], (S1Angle.Degrees 1, "a"), [], [].
Qed.

Lemma duplicates_are_reported_by_expectation_run :
  (doubled = doubled \/ doubled = single)
  /\ distances_are_numbers doubled
  /\ has_duplicate doubled
  /\ In (ExpectFailure duplicates_expectation)
       (events (CheckDistanceResults LeftFirst single doubled 1
                  (S1Angle.Degrees 10) (S1Angle.Degrees 0))).
Proof.
  assert (Hx : doubled = doubled \/ doubled = single) by (left; reflexivity).
  assert (Nx : distances_are_numbers doubled)
    by (apply example_numbers; reflexivity).
  assert (Hdup : has_duplicate doubled)
    by (exists [], (S1Angle.Degrees 1, "a"), [], []; reflexivity).
  repeat (split; [assumption|]).
  exact (proj1 (duplicates_are_reported_by_expectation LeftFirst single
           doubled doubled 1 (S1Angle.Degrees 10) (S1Angle.Degrees 0)
           Hx Nx Hdup)).
Defined.

(** An [actual] in descending order that passes: the disorder is reported
    by the expectation only. *)
Lemma reversed_actual_returns_true :
  out_of_order reversed
  /\ CheckDistanceResults LeftFirst first_two reversed 5 (S1Angle.Degrees 10)
       (S1Angle.Degrees 0)
     = (true, [ExpectFailure sorted_expectation])
  /\ CheckDistanceResults RightFirst first_two reversed 5
       (S1Angle.Degrees 10) (S1Angle.Degrees 0)
     = (true, [ExpectFailure sorted_expectation]).
Proof.
  split; [|split; vm_compute; reflexivity].
  exists [], (S1Angle.Degrees 2, "b"), [], (S1Angle.Degrees 1, "a"), [].
  split; reflexivity.
Qed.

Lemma disorder_is_reported_by_expectation_run :
  (reversed = reversed \/ reversed = first_two)
  /\ distances_are_numbers reversed
  /\ out_of_order reversed
  /\ In (ExpectFailure sorted_expectation)
       (events (CheckDistanceResults LeftFirst first_two reversed 5
                  (S1Angle.Degrees 10) (S1Angle.Degrees 0))).
Proof.
  assert (Hx : reversed = reversed \/ reversed = first_two)
    by (left; reflexivity).
  assert (Nx : distances_are_numbers reversed)
    by (apply example_numbers; reflexivity).
  assert (Hdis : out_of_order reversed).
  { exists [], (S1Angle.Degrees 2, "b"), [], (S1Angle.Degrees 1, "a"), [].
    split; reflexivity. }
  repeat (split; [assumption|]).
  exact (proj1 (disorder_is_reported_by_expectation LeftFirst first_two
           reversed reversed 5 (S1Angle.Degrees 10) (S1Angle.Degrees 0)
           Hx Nx Hdis)).
Defined.

(** The repeated pair [(1 deg, a)] is in [expected] but not below the
    "Missing" limit; yet with the repetition the check returns [true], and
    without it [false]: the repetition fills the size cap and lowers the
    limit. *)
Lemma repetition_changes_result_through_size_cap :
  count doubled (S1Angle.Degrees 1, "a") = 2%Z
  /\ In (S1Angle.Degrees 1, "a") first_two
  /\ (S1Angle.Degrees 1
      <? coverage_limit doubled 2 (S1Angle.Degrees 10) (S1Angle.Degrees 0)
           kMaxPruningError) = false
  /\ value (CheckDistanceResults LeftFirst first_two doubled 2
              (S1Angle.Degrees 10) (S1Angle.Degrees 0)) = true
  /\ value (CheckDistanceResults LeftFirst first_two single 2
              (S1Angle.Degrees 10) (S1Angle.Degrees 0)) = false.
Proof.
  repeat split; try (vm_compute; reflexivity).
  now left.
Qed.

Lemma repeated_pair_in_actual_run :
  (2 <= count doubled (S1Angle.Degrees 1, "a"))%Z
  /\ value (CheckDistanceResults LeftFirst expected doubled 5
              (S1Angle.Degrees 10) (S1Angle.Degrees 0)) = false.
Proof.
  assert (Htwice : (2 <= count doubled (S1Angle.Degrees 1, "a"))%Z)
    by (cbv; discriminate).
  split; [exact Htwice|].
  refine (proj2 (proj1 (repeated_pair_in_actual LeftFirst expected doubled 5
            (S1Angle.Degrees 10) (S1Angle.Degrees 0)
            (S1Angle.Degrees 1, "a") Htwice) _ _)).
  - now left.
  - reflexivity.
Defined.

End Runs.

(** * Further properties of the verifier *)

(** ** More on binary64 values *)

Module FloatFacts.

Import SpecFloat.

Lemma SFeqb_refl a : a <> S754_nan -> SFeqb a a = true.
Proof.
  unfold SFeqb.
  destruct a as [[]|[]| |[] m e]; try reflexivity; try congruence; intros _;
    rewrite FloatOrder.SFcompare_finite, Z.compare_refl, Pos.compare_refl;
    reflexivity.
Qed.

Lemma SFltb_nan_l b : SFltb S754_nan b = false.
Proof. reflexivity. Qed.

Lemma SFltb_nan_r a : SFltb a S754_nan = false.
Proof. destruct a; reflexivity. Qed.

Lemma SFsub_nan_l b : SF64sub S754_nan b = S754_nan.
Proof. reflexivity. Qed.

Lemma SFsub_zero_r a : SF64sub a (S754_zero false) = a.
Proof. destruct a as [[]|[]| |[] m e]; reflexivity. Qed.

End FloatFacts.

Section AngleFacts.

Local Open Scope angle_scope.

Lemma not_number_is_nan a :
  S1Angle.is_number a = false ->
  Prim2SF (S1Angle.radians a) = SpecFloat.S754_nan.
Proof.
  unfold S1Angle.is_number, S1Angle.eqb. rewrite eqb_spec. intros Hne.
  destruct (Prim2SF (S1Angle.radians a)) eqn:Ha; try reflexivity;
    rewrite FloatFacts.SFeqb_refl in Hne; discriminate.
Qed.

(** Only a number is below anything. *)
Lemma below_is_number a b : (a <? b) = true -> S1Angle.is_number a = true.
Proof.
  intros Hlt. destruct (S1Angle.is_number a) eqn:Ha; [reflexivity|].
  apply not_number_is_nan in Ha.
  unfold S1Angle.ltb in Hlt. rewrite ltb_spec, Ha in Hlt. discriminate.
Qed.

(** Nothing is below a NaN. *)
Lemma not_below_nan a b : S1Angle.is_number b = false -> (a <? b) = false.
Proof.
  intros Hb. apply not_number_is_nan in Hb.
  unfold S1Angle.ltb. rewrite ltb_spec, Hb.
  apply FloatFacts.SFltb_nan_r.
Qed.

(** A NaN minus anything is a NaN. *)
Lemma nan_sub a b :
  S1Angle.is_number a = false -> S1Angle.is_number (a - b) = false.
Proof.
  intros Ha. apply not_number_is_nan in Ha.
  unfold S1Angle.is_number, S1Angle.eqb, S1Angle.sub; simpl.
  now rewrite eqb_spec, sub_spec, Ha.
Qed.

(** Subtracting [S1Angle::Zero()] changes nothing. *)
Lemma angle_sub_Zero a : a - S1Angle.Zero = a.
Proof.
  destruct a as [r]. unfold S1Angle.sub, S1Angle.Zero; simpl. f_equal.
  apply Prim2SF_inj. rewrite sub_spec.
  change (Prim2SF 0%float) with (SpecFloat.S754_zero false).
  apply FloatFacts.SFsub_zero_r.
Qed.

End AngleFacts.

(** ** The diagnostics and the returned boolean *)

Section DiagnosticFacts.

Context {Id : Type} `{IdOps Id}.
Import S2_internal.
Local Open Scope angle_scope.

Lemma forallb_false_iff {A} (f : A -> bool) (l : list A) :
  forallb f l = false <-> exists a, In a l /\ f a = false.
Proof.
  induction l as [|a l IH]; simpl.
  - split; [discriminate | intros (a & [] & _)].
  - rewrite andb_false_iff, IH. split.
    + intros [Ha | (b & Hb & Hf)]; [exists a | exists b]; auto.
    + intros (b & [<- | Hb] & Hf); [now left | right; now exists b].
Qed.

Lemma violates_true_iff x limit (p : Result Id) :
  violates x limit p = true
  <-> (fst p <? limit) = true /\ count x p <> 1%Z.
Proof.
  unfold violates.
  now rewrite andb_true_iff, negb_true_iff, Z.eqb_neq.
Qed.

(** The diagnostics of one direction. *)
Lemma In_Diagnostic_CheckResultSet (x y : list (Result Id)) max_size
    max_distance max_error tol label l p :
  In (Diagnostic l p)
     (events (CheckResultSet x y max_size max_distance max_error tol label))
  <-> l = label /\ In p y
      /\ violates x (coverage_limit x max_size max_distance max_error tol) p
         = true.
Proof.
  rewrite events_CheckResultSet, !in_app_iff, in_map_iff. split.
  - intros [Hs | [Hd | (q & Heq & Hq)]].
    + destruct (is_sorted CompareFirst x); simpl in Hs;
        [contradiction | destruct Hs as [Hs | []]; discriminate].
    + destruct (size (set_of_range x) =? size x)%Z; simpl in Hd;
        [contradiction | destruct Hd as [Hd | []]; discriminate].
    + injection Heq as -> ->. apply filter_In in Hq. tauto.
  - intros (-> & Hp & Hv). right. right. exists p.
    split; [reflexivity | now apply filter_In].
Qed.

(** One direction returns [false] exactly when some reference pair
    violates the requirement. *)
Lemma CheckResultSet_false_iff (x y : list (Result Id)) max_size
    max_distance max_error tol label :
  value (CheckResultSet x y max_size max_distance max_error tol label) = false
  <-> exists p, In p y
        /\ violates x (coverage_limit x max_size max_distance max_error tol) p
           = true.
Proof.
  rewrite value_CheckResultSet, forallb_false_iff.
  split; intros (p & Hp & Hv); exists p; split; auto.
  - now apply negb_false_iff.
  - now apply negb_false_iff.
Qed.

(** X1.  [CheckDistanceResults] returns [false] exactly when it has written
    at least one diagnostic line: a failure is never silent, and a line is
    never written by a call that returns [true]. *)
Theorem returns_false_iff_diagnostic
    (order : EvalOrder) (expected actual : list (Result Id)) (max_size : Z)
    (max_distance max_error : S1Angle.t) :
  value (CheckDistanceResults order expected actual max_size max_distance
           max_error) = false
  <-> exists label p,
        In (Diagnostic label p)
           (events (CheckDistanceResults order expected actual max_size
                      max_distance max_error)).
Proof.
  unfold CheckDistanceResults, Missing_check, Extra_check.
  rewrite value_bitand, andb_false_iff, !CheckResultSet_false_iff. split.
  - intros [(p & Hp & Hv) | (p & Hp & Hv)].
    + exists "Missing"%string, p. apply In_events_bitand. left.
      now apply In_Diagnostic_CheckResultSet.
    + exists "Extra"%string, p. apply In_events_bitand. right.
      now apply In_Diagnostic_CheckResultSet.
  - intros (label & p & Hin). apply In_events_bitand in Hin.
    destruct Hin as [Hin | Hin];
      apply In_Diagnostic_CheckResultSet in Hin as (_ & Hp & Hv);
      [left | right]; now exists p.
Qed.

(** X2.  The diagnostic lines are exactly these: a "Missing" line for each
    pair of [expected] below the limit of the "Missing" direction that does
    not occur exactly once in [actual], and an "Extra" line for each pair of
    [actual] below the limit of the "Extra" direction that does not occur
    exactly once in [expected]. *)
Theorem diagnostics_characterised
    (order : EvalOrder) (expected actual : list (Result Id)) (max_size : Z)
    (max_distance max_error : S1Angle.t) (label : string) (p : Result Id) :
  In (Diagnostic label p)
     (events (CheckDistanceResults order expected actual max_size
                max_distance max_error))
  <-> (label = "Missing"%string /\ In p expected
       /\ (fst p <? coverage_limit actual max_size max_distance max_error
                      kMaxPruningError) = true
       /\ count actual p <> 1%Z)
      \/ (label = "Extra"%string /\ In p actual
          /\ (fst p <? coverage_limit expected max_size max_distance
                         max_error S1Angle.Zero) = true
          /\ count expected p <> 1%Z).
Proof.
  unfold CheckDistanceResults, Missing_check, Extra_check.
  rewrite In_events_bitand, !In_Diagnostic_CheckResultSet,
    !violates_true_iff.
  tauto.
Qed.

(** X6.  No diagnostic is ever written for a pair whose distance is a NaN:
    such a pair is below no limit. *)
Theorem nan_pair_never_reported
    (order : EvalOrder) (expected actual : list (Result Id)) (max_size : Z)
    (max_distance max_error : S1Angle.t) (label : string) (p : Result Id) :
  In (Diagnostic label p)
     (events (CheckDistanceResults order expected actual max_size
                max_distance max_error)) ->
  S1Angle.is_number (fst p) = true.
Proof.
  unfold CheckDistanceResults, Missing_check, Extra_check.
  rewrite In_events_bitand, !In_Diagnostic_CheckResultSet,
    !violates_true_iff.
  intros [(_ & _ & Hlt & _) | (_ & _ & Hlt & _)];
    eapply below_is_number; eassumption.
Qed.

End DiagnosticFacts.

(** ** When the expectations fail *)

Section ExpectationFacts.

Context {Id : Type} `{IdOps Id}.
Import S2_internal.
Local Open Scope angle_scope.

Lemma In_ExpectFailure_CheckResultSet (x y : list (Result Id)) max_size
    max_distance max_error tol label e :
  In (ExpectFailure e)
     (events (CheckResultSet x y max_size max_distance max_error tol label))
  <-> (e = sorted_expectation /\ is_sorted CompareFirst x = false)
      \/ (e = duplicates_expectation
          /\ (size (set_of_range x) =? size x)%Z = false).
Proof.
  rewrite events_CheckResultSet, !in_app_iff, in_map_iff. split.
  - intros [Hs | [Hd | (q & Heq & _)]]; [| |discriminate].
    + destruct (is_sorted CompareFirst x); simpl in Hs; [contradiction|].
      destruct Hs as [Hs | []]. injection Hs as <-. now left.
    + destruct (size (set_of_range x) =? size x)%Z; simpl in Hd;
        [contradiction|].
      destruct Hd as [Hd | []]. injection Hd as <-. now right.
  - intros [(-> & ->) | (-> & ->)]; [left | right; left]; now left.
Qed.

Lemma is_sorted_false_descent comp (x : list (Result Id)) :
  is_sorted comp x = false ->
  exists l1 a b l3, x = l1 ++ a :: b :: l3 /\ comp b a = true.
Proof.
  induction x as [|a x IH]; [discriminate|].
  cbn [is_sorted]. destruct x as [|b x]; [discriminate|].
  rewrite andb_false_iff, negb_false_iff. intros [Hba | Hrest].
  - now exists [], a, b, x.
  - destruct (IH Hrest) as (l1 & a' & b' & l3 & Heq & Hlt).
    exists (a :: l1), a', b', l3. split; [|assumption].
    simpl. now rewrite <- Heq.
Qed.

(** X3.  The sortedness expectation of a direction fails exactly when some
    element of the candidate sequence has a strictly smaller distance than
    the element just before it; the identifiers play no part. *)
Theorem sorted_expectation_fails_iff_descent
    (x y : list (Result Id)) (max_size : Z)
    (max_distance max_error max_pruning_error : S1Angle.t) (label : string) :
  In (ExpectFailure sorted_expectation)
     (events (CheckResultSet x y max_size max_distance max_error
                max_pruning_error label))
  <-> has_descent x.
Proof.
  rewrite In_ExpectFailure_CheckResultSet. split.
  - intros [(_ & Hs) | (Hne & _)]; [|discriminate].
    apply is_sorted_false_descent in Hs as (l1 & a & b & l3 & Heq & Hlt).
    now exists l1, a, b, l3.
  - intros (l1 & a & b & l3 & -> & Hlt). left. split; [reflexivity|].
    now apply is_sorted_adjacent.
Qed.

(** An insertion either adds a key or meets an equivalent one. *)
Lemma set_insert_grows_or_equivalent (p : Result Id) s :
  List.length (set_insert p s) = S (List.length s)
  \/ exists q, In q s /\ equivalent p q = true.
Proof.
  induction s as [|h s IH]; simpl; [now left|].
  destruct (pair_ltb p h) eqn:Hph; [now left|].
  destruct (pair_ltb h p) eqn:Hhp.
  - destruct IH as [Hlen | (q & Hq & Heq)].
    + left. simpl. now rewrite Hlen.
    + right. exists q. auto.
  - right. exists h. split; [now left|].
    unfold equivalent. now rewrite Hph, Hhp.
Qed.

(** A set smaller than the sequence it was built from shows two
    equivalent keys in the sequence. *)
Lemma set_fold_short_equivalent (l : list (Result Id)) :
  forall pre s, (forall q, In q s -> In q pre) ->
  List.length (fold_left (fun s p => set_insert p s) l s)
  = (List.length l + List.length s)%nat
  \/ has_equivalent_keys (pre ++ l).
Proof.
  induction l as [|p l IH]; intros pre s Hsub; simpl; [now left|].
  destruct (set_insert_grows_or_equivalent p s) as [Hlen | (q & Hq & Heq)].
  - destruct (IH (pre ++ [p]) (set_insert p s)) as [Hfold | Hdup].
    + intros q Hq. apply in_app_iff.
      destruct (In_set_insert q p s Hq) as [-> | Hold];
        [right; now left | left; auto].
    + left. rewrite Hfold, Hlen. lia.
    + right. now rewrite <- app_assoc in Hdup.
  - right. destruct (in_split q pre (Hsub q Hq)) as (l1 & l2 & ->).
    exists l1, q, l2, p, l. split; [|assumption].
    now rewrite <- app_assoc.
Qed.

End ExpectationFacts.

Section DuplicateFacts.

Context {Id : Type} `{IdLaws Id}.
Import S2_internal.
Local Open Scope angle_scope.

Lemma equivalent_trans (p q r : Result Id) :
  S1Angle.is_number (fst p) = true ->
  S1Angle.is_number (fst q) = true ->
  S1Angle.is_number (fst r) = true ->
  equivalent p q = true -> equivalent q r = true -> equivalent p r = true.
Proof.
  intros Np Nq Nr. rewrite !equivalent_true.
  intros [Hpq Hqp] [Hqr Hrq]. split; apply not_true_is_false; intros Hlt.
  - destruct (pair_ltb_cotrans p q r Np Nq Nr Hlt); congruence.
  - destruct (pair_ltb_cotrans r q p Nr Nq Np Hlt); congruence.
Qed.

(** Two equivalent keys in the sequence give a set with fewer keys than the
    sequence has elements. *)
Lemma set_of_range_equivalent_keys (x : list (Result Id)) :
  distances_are_numbers x -> has_equivalent_keys x ->
  size (set_of_range x) < size x.
Proof.
  intros Nx (l1 & q & l2 & p & l3 & -> & Hpq).
  apply distances_are_numbers_app in Nx as [N1 Nx].
  apply distances_are_numbers_cons in Nx as [Nq Nx].
  apply distances_are_numbers_app in Nx as [N2 Nx].
  apply distances_are_numbers_cons in Nx as [Np N3].
  unfold set_of_range, size.
  rewrite fold_left_app; simpl. rewrite fold_left_app; simpl.
  assert (Hnil : distances_are_numbers (@nil (Result Id))) by (intros ? []).
  destruct (set_fold_invariant l1 [] N1 Hnil) as (Na & Aa & La & _);
    [constructor|].
  set (s1 := fold_left _ l1 []) in *.
  destruct (set_insert_equivalent q s1) as (r & Hr & Hqr).
  pose proof (length_set_insert q s1) as Lb.
  assert (Nb : distances_are_numbers (set_insert q s1))
    by auto using set_insert_numbers.
  destruct (set_fold_invariant l2 (set_insert q s1) N2 Nb)
    as (Nc & Ac & Lc & Ic); auto using set_insert_ascending.
  set (s3 := fold_left _ l2 (set_insert q s1)) in *.
  assert (Hpr : equivalent p r = true)
    by (apply equivalent_trans with (q := q); auto).
  rewrite (set_insert_present p r s3) by auto.
  destruct (set_fold_invariant l3 s3 N3 Nc Ac) as (_ & _ & Ld & _).
  cbv zeta in *.
  rewrite !length_app; simpl. rewrite length_app; simpl. simpl in La. lia.
Qed.

(** X4.  When no distance of the candidate sequence is a NaN, the
    no-duplicates expectation of a direction fails exactly when two
    positions of the sequence hold equivalent keys (neither pair less than
    the other): a repeated pair is always reported, and nothing else is. *)
Theorem duplicates_expectation_fails_iff_equivalent_keys
    (x y : list (Result Id)) (max_size : Z)
    (max_distance max_error max_pruning_error : S1Angle.t) (label : string) :
  distances_are_numbers x ->
  (In (ExpectFailure duplicates_expectation)
      (events (CheckResultSet x y max_size max_distance max_error
                 max_pruning_error label))
   <-> has_equivalent_keys x).
Proof.
  intros Nx. rewrite In_ExpectFailure_CheckResultSet. split.
  - intros [(Hne & _) | (_ & Hsize)]; [discriminate|].
    apply Z.eqb_neq in Hsize.
    destruct (set_fold_short_equivalent x [] []) as [Hlen | Hdup];
      [intros q [] | | exact Hdup].
    exfalso. apply Hsize. unfold size, set_of_range.
    rewrite Hlen. simpl. now rewrite Nat.add_0_r.
  - intros Hdup. right. split; [reflexivity|].
    apply Z.eqb_neq, Z.lt_neq. now apply set_of_range_equivalent_keys.
Qed.

End DuplicateFacts.

(** ** Equality and order *)

#[export] Instance string_IdEqLaws : IdEqLaws string.
Proof.
  constructor. intros a b. simpl. unfold String.ltb.
  rewrite (String.compare_antisym b a).
  destruct (String.eqb_spec a b) as [-> | Hne].
  - assert (Heq : String.compare b b = Eq)
      by now apply String_as_OT.cmp_eq.
    now rewrite Heq.
  - destruct (String.compare a b) eqn:Hcmp; try reflexivity.
    apply String.compare_eq_iff in Hcmp. contradiction.
Qed.

#[export] Instance Z_IdEqLaws : IdEqLaws Z.
Proof.
  constructor. intros a b. simpl.
  destruct (Z.eqb_spec a b), (Z.ltb_spec a b), (Z.ltb_spec b a);
    simpl; auto; lia.
Qed.

Module FloatEquality.

Import SpecFloat.

(** On numbers, [==] holds exactly when neither value is below the
    other. *)
Lemma SFeqb_ltb a b :
  a <> S754_nan -> b <> S754_nan ->
  SFeqb a b = negb (SFltb a b) && negb (SFltb b a).
Proof.
  unfold SFeqb, SFltb. intros Ha Hb.
  destruct a as [[]|[]| |[] ? ?], b as [[]|[]| |[] ? ?];
    try reflexivity; try congruence;
    rewrite !FloatOrder.SFcompare_finite; try reflexivity;
    FloatOrder.compare_cases.
Qed.

End FloatEquality.

Section EqualityFacts.

Context {Id : Type} `{IdLaws Id} `{!IdEqLaws Id}.
Import S2_internal.
Local Open Scope angle_scope.

Lemma angle_eqb_ltb a b :
  S1Angle.is_number a = true -> S1Angle.is_number b = true ->
  (a =? b) = negb (a <? b) && negb (b <? a).
Proof.
  intros Na Nb. unfold S1Angle.eqb, S1Angle.ltb.
  rewrite eqb_spec, !ltb_spec.
  apply FloatEquality.SFeqb_ltb; now apply is_number_not_nan.
Qed.

(** On pairs of numbers, [operator==] is the equivalence of the set. *)
Lemma pair_eqb_equivalent (p q : Result Id) :
  S1Angle.is_number (fst p) = true -> S1Angle.is_number (fst q) = true ->
  pair_eqb p q = equivalent p q.
Proof.
  intros Np Nq. unfold pair_eqb, equivalent, pair_ltb.
  rewrite (angle_eqb_ltb _ _ Np Nq), id_eqb_ltb.
  destruct (fst p <? fst q) eqn:Hpq, (fst q <? fst p) eqn:Hqp; simpl;
    reflexivity.
Qed.

Lemma equivalent_sym (p q : Result Id) : equivalent p q = equivalent q p.
Proof. unfold equivalent. apply andb_comm. Qed.

Lemma count_app (l1 l2 : list (Result Id)) p :
  count (l1 ++ l2) p = count l1 p + count l2 p.
Proof.
  induction l1 as [|e l1 IH]; simpl; [reflexivity|]. rewrite IH. lia.
Qed.

Lemma count_none (l : list (Result Id)) p :
  (forall e, In e l -> pair_eqb e p = false) -> count l p = 0.
Proof.
  induction l as [|e l IH]; intros Hall; simpl; [reflexivity|].
  rewrite (Hall e) by now left.
  rewrite IH; [reflexivity|]. intros e' He'. apply Hall. now right.
Qed.

(** In a sequence of numbers without equivalent keys, every pair of the
    sequence is counted exactly once. *)
Lemma count_once (x : list (Result Id)) p :
  distances_are_numbers x -> ~ has_equivalent_keys x -> In p x ->
  count x p = 1.
Proof.
  intros Nx Hnodup Hp.
  destruct (in_split p x Hp) as (l1 & l2 & ->).
  assert (Np : S1Angle.is_number (fst p) = true) by auto.
  rewrite count_app. cbn [count].
  rewrite (pair_eqb_equivalent p p Np Np), equivalent_refl.
  rewrite !count_none; [reflexivity | |].
  - intros e He. apply not_true_is_false. intros Heq.
    assert (Ne : S1Angle.is_number (fst e) = true).
    { apply Nx. rewrite in_app_iff. right. now right. }
    rewrite (pair_eqb_equivalent e p Ne Np) in Heq.
    apply Hnodup. destruct (in_split e l2 He) as (m1 & m2 & ->).
    now exists l1, p, m1, e, m2.
  - intros e He. apply not_true_is_false. intros Heq.
    assert (Ne : S1Angle.is_number (fst e) = true).
    { apply Nx. rewrite in_app_iff. now left. }
    rewrite (pair_eqb_equivalent e p Ne Np), equivalent_sym in Heq.
    apply Hnodup. destruct (in_split e l1 He) as (m1 & m2 & ->).
    exists m1, e, m2, p, l2. split; [|assumption].
    now rewrite <- app_assoc.
Qed.

(** X5.  A sequence of numbers on which the no-duplicates expectation does
    not fail passes against itself: with [expected] and [actual] the same
    sequence, [CheckDistanceResults] returns [true] for every [max_size],
    [max_distance] and [max_error]. *)
Theorem identical_sequences_pass
    (order : EvalOrder) (x : list (Result Id)) (max_size : Z)
    (max_distance max_error : S1Angle.t) :
  distances_are_numbers x ->
  ~ has_equivalent_keys x ->
  value (CheckDistanceResults order x x max_size max_distance max_error)
  = true.
Proof.
  intros Nx Hnodup. apply CheckDistanceResults_true_iff.
  split; intros p Hp _; now apply count_once.
Qed.

End EqualityFacts.

(** ** Empty sequences and a NaN limit *)

Section EdgeFacts.

Context {Id : Type} `{IdOps Id}.
Import S2_internal.
Local Open Scope angle_scope.

(** A sequence shorter than a non-negative [max_size] is not capped. *)
Lemma shorter_is_uncapped (x : list (Result Id)) max_size :
  is_int max_size -> size x < max_size ->
  (size x <? to_size_t max_size)%Z = true.
Proof.
  intros [Hlo Hhi] Hlt. pose proof (size_range x).
  rewrite to_size_t_nonneg by lia. now apply Z.ltb_lt.
Qed.

(** The empty sequence is not capped unless [max_size] is zero. *)
Lemma empty_is_uncapped max_size :
  is_int max_size -> max_size <> 0 ->
  (size (@nil (Result Id)) <? to_size_t max_size)%Z = true.
Proof.
  intros Hint Hnz. apply size_lt_max_size; [assumption | |].
  - unfold size; simpl. unfold vector_max_size, size_t_bits; simpl. lia.
  - unfold size; simpl. lia.
Qed.

Lemma count_nil (p : Result Id) : count [] p = 0.
Proof. reflexivity. Qed.

(** X7.  If [max_distance] is a NaN and neither sequence reaches
    [max_size], [CheckDistanceResults] returns [true] whatever the two
    sequences hold: the limit of both directions is a NaN, below which
    there is nothing. *)
Theorem nan_max_distance_accepts_everything
    (order : EvalOrder) (expected actual : list (Result Id)) (max_size : Z)
    (max_distance max_error : S1Angle.t) :
  is_int max_size ->
  size expected < max_size ->
  size actual < max_size ->
  S1Angle.is_number max_distance = false ->
  value (CheckDistanceResults order expected actual max_size max_distance
           max_error) = true.
Proof.
  intros Hint He Ha Hnan. apply CheckDistanceResults_true_iff.
  rewrite !coverage_limit_uncapped by now apply shorter_is_uncapped.
  split; intros p _ Hlt;
    rewrite not_below_nan in Hlt by now apply nan_sub.
  - discriminate.
  - discriminate.
Qed.

(** X8.  When [actual] is empty and [max_size] is not zero,
    [CheckDistanceResults] returns [true] exactly when no pair of
    [expected] is below [max_distance - 1e-15 rad]: each such pair is
    missing. *)
Theorem empty_actual_passes_iff_nothing_below_limit
    (order : EvalOrder) (expected : list (Result Id)) (max_size : Z)
    (max_distance max_error : S1Angle.t) :
  is_int max_size ->
  max_size <> 0 ->
  (value (CheckDistanceResults order expected [] max_size max_distance
            max_error) = true
   <-> forall p, In p expected ->
         (fst p <? max_distance - kMaxPruningError) = false).
Proof.
  intros Hint Hnz. rewrite CheckDistanceResults_true_iff.
  rewrite (coverage_limit_uncapped [])
    by now apply empty_is_uncapped.
  split.
  - intros [Hmissing _] p Hp. apply not_true_is_false. intros Hlt.
    specialize (Hmissing p Hp Hlt). rewrite count_nil in Hmissing.
    discriminate.
  - intros Hnone. split.
    + intros p Hp Hlt. rewrite (Hnone p Hp) in Hlt. discriminate.
    + intros p [].
Qed.

(** X9.  When [expected] is empty and [max_size] is not zero,
    [CheckDistanceResults] returns [true] exactly when no pair of [actual]
    is below [max_distance] itself: the "Extra" direction subtracts a zero
    tolerance, which leaves [max_distance] as it is. *)
Theorem empty_expected_passes_iff_nothing_below_max_distance
    (order : EvalOrder) (actual : list (Result Id)) (max_size : Z)
    (max_distance max_error : S1Angle.t) :
  is_int max_size ->
  max_size <> 0 ->
  (value (CheckDistanceResults order [] actual max_size max_distance
            max_error) = true
   <-> forall p, In p actual -> (fst p <? max_distance) = false).
Proof.
  intros Hint Hnz. rewrite CheckDistanceResults_true_iff.
  rewrite (coverage_limit_uncapped [] max_size max_distance max_error
             S1Angle.Zero) by now apply empty_is_uncapped.
  rewrite angle_sub_Zero.
  split.
  - intros [_ Hextra] p Hp. apply not_true_is_false. intros Hlt.
    specialize (Hextra p Hp Hlt). rewrite count_nil in Hextra.
    discriminate.
  - intros Hnone. split.
    + intros p [].
    + intros p Hp Hlt. rewrite (Hnone p Hp) in Hlt. discriminate.
Qed.

End EdgeFacts.

(** ** The two notions of a duplicate *)

Section CountFacts.

Context {Id : Type} `{IdLaws Id} `{!IdEqLaws Id}.
Import S2_internal.
Local Open Scope angle_scope.

Lemma count_position (l : list (Result Id)) p :
  1 <= count l p ->
  exists l1 e l2, l = l1 ++ e :: l2 /\ pair_eqb e p = true.
Proof.
  induction l as [|e l IH]; simpl; [lia|].
  destruct (pair_eqb e p) eqn:Heq.
  - intros _. now exists [], e, l.
  - intros Hc. destruct IH as (l1 & e' & l2 & -> & He'); [lia|].
    now exists (e :: l1), e', l2.
Qed.

Lemma count_two_positions (l : list (Result Id)) p :
  2 <= count l p ->
  exists l1 e1 l2 e2 l3,
    l = l1 ++ e1 :: l2 ++ e2 :: l3
    /\ pair_eqb e1 p = true /\ pair_eqb e2 p = true.
Proof.
  induction l as [|e l IH]; simpl; [lia|].
  destruct (pair_eqb e p) eqn:Heq.
  - intros Hc. destruct (count_position l p) as (l2 & e2 & l3 & -> & He2);
      [lia|].
    now exists [], e, l2, e2, l3.
  - intros Hc.
    destruct IH as (l1 & e1 & l2 & e2 & l3 & -> & He1 & He2); [lia|].
    now exists (e :: l1), e1, l2, e2, l3.
Qed.

Lemma set_smaller_iff_equivalent_keys (x : list (Result Id)) :
  distances_are_numbers x ->
  (size (set_of_range x) =? size x)%Z = false <-> has_equivalent_keys x.
Proof.
  intros Nx. split.
  - intros Hsize. apply Z.eqb_neq in Hsize.
    destruct (set_fold_short_equivalent x [] []) as [Hlen | Hdup];
      [intros q [] | | exact Hdup].
    exfalso. apply Hsize. unfold size, set_of_range.
    rewrite Hlen. simpl. now rewrite Nat.add_0_r.
  - intros Hdup. apply Z.eqb_neq, Z.lt_neq.
    now apply set_of_range_equivalent_keys.
Qed.

(** X10.  The function has two notions of a duplicate, the one of
    [std::set] in the expectation and the one of [std::count] in the loop.
    On a candidate sequence of numbers they agree: the no-duplicates
    expectation fails exactly when [std::count] finds some pair of the
    sequence at least twice in it. *)
Theorem duplicates_expectation_agrees_with_count
    (x y : list (Result Id)) (max_size : Z)
    (max_distance max_error max_pruning_error : S1Angle.t) (label : string) :
  distances_are_numbers x ->
  (In (ExpectFailure duplicates_expectation)
      (events (CheckResultSet x y max_size max_distance max_error
                 max_pruning_error label))
   <-> exists p, In p x /\ 2 <= count x p).
Proof.
  intros Nx. rewrite In_ExpectFailure_CheckResultSet.
  rewrite (set_smaller_iff_equivalent_keys x Nx). split.
  - intros [(Hne & _) | (_ & (l1 & q & l2 & p & l3 & -> & Hpq))];
      [discriminate|].
    assert (Nq : S1Angle.is_number (fst q) = true).
    { apply Nx. rewrite in_app_iff. right. now left. }
    assert (Hp : In p (l1 ++ q :: l2 ++ p :: l3)).
    { apply in_or_app. right. right. apply in_elt. }
    assert (Np : S1Angle.is_number (fst p) = true) by auto.
    exists p. split; [exact Hp|].
    rewrite count_app. cbn [count]. rewrite count_app. cbn [count].
      rewrite (pair_eqb_equivalent q p Nq Np), equivalent_sym, Hpq.
      rewrite (pair_eqb_equivalent p p Np Np), equivalent_refl.
      pose proof (count_nonneg l1 p). pose proof (count_nonneg l2 p).
      pose proof (count_nonneg l3 p). lia.
  - intros (p & Hp & Htwice). right. split; [reflexivity|].
    destruct (count_two_positions x p Htwice)
      as (l1 & e1 & l2 & e2 & l3 & -> & He1 & He2).
    assert (Np : S1Angle.is_number (fst p) = true) by auto.
    assert (N1 : S1Angle.is_number (fst e1) = true).
    { apply Nx. rewrite in_app_iff. right. now left. }
    assert (N2 : S1Angle.is_number (fst e2) = true).
    { apply Nx. apply in_or_app. right. right. apply in_elt. }
    rewrite (pair_eqb_equivalent e1 p N1 Np), equivalent_sym in He1.
    rewrite (pair_eqb_equivalent e2 p N2 Np) in He2.
    exists l1, e1, l2, e2, l3. split; [reflexivity|].
    now apply equivalent_trans with (q := p).
Qed.

End CountFacts.

(** ** The order of the sequences *)

Section OrderFacts.

Context {Id : Type} `{IdOps Id}.
Import S2_internal.
Local Open Scope angle_scope.

Lemma count_Permutation (x x' : list (Result Id)) p :
  Permutation x x' -> count x p = count x' p.
Proof.
  induction 1 as [|e l l' _ IH|e1 e2 l|l l' l'' _ IH1 _ IH2]; simpl;
    [reflexivity | now rewrite IH | lia | congruence].
Qed.

Lemma size_Permutation (x x' : list (Result Id)) :
  Permutation x x' -> size x = size x'.
Proof.
  intros Hperm. unfold size. now rewrite (Permutation_length Hperm).
Qed.

(** X11.  While neither sequence reaches [max_size], the returned boolean
    does not depend on the order of [expected] or of [actual]: the order of
    the candidates matters only through their last element, which the
    uncapped limit does not use. *)
Theorem uncapped_result_ignores_order
    (order : EvalOrder) (expected expected' actual actual' : list (Result Id))
    (max_size : Z) (max_distance max_error : S1Angle.t) :
  is_int max_size ->
  size expected < max_size ->
  size actual < max_size ->
  Permutation expected expected' ->
  Permutation actual actual' ->
  value (CheckDistanceResults order expected' actual' max_size max_distance
           max_error)
  = value (CheckDistanceResults order expected actual max_size max_distance
             max_error).
Proof.
  intros Hint He Ha Pe Pa. apply eq_iff_eq_true.
  rewrite !CheckDistanceResults_true_iff.
  assert (He' : size expected' < max_size)
    by now rewrite <- (size_Permutation _ _ Pe).
  assert (Ha' : size actual' < max_size)
    by now rewrite <- (size_Permutation _ _ Pa).
  rewrite !coverage_limit_uncapped by now apply shorter_is_uncapped.
  split; intros [Hm Hx]; split; intros p Hp Hlt.
  - rewrite (count_Permutation _ _ p Pa). apply Hm; [|assumption].
    now apply (Permutation_in p Pe).
  - rewrite (count_Permutation _ _ p Pe). apply Hx; [|assumption].
    now apply (Permutation_in p Pa).
  - rewrite <- (count_Permutation _ _ p Pa). apply Hm; [|assumption].
    now apply (Permutation_in p (Permutation_sym Pe)).
  - rewrite <- (count_Permutation _ _ p Pe). apply Hx; [|assumption].
    now apply (Permutation_in p (Permutation_sym Pa)).
Qed.

End OrderFacts.

(** ** The exact "Extra" direction and the comparator *)

Section ExactFacts.

Context {Id : Type} `{IdOps Id}.
Import S2_internal.
Local Open Scope angle_scope.

(** X12.  With [max_error] zero, when [expected] has reached a non-negative
    [max_size], the limit of the "Extra" direction is the distance of the
    last pair of [expected] itself (the two zero subtractions change
    nothing), and the direction returns [true] exactly when every pair of
    [actual] strictly closer than that occurs exactly once in
    [expected]. *)
Theorem exact_capped_Extra_limit_is_last_distance
    (front actual : list (Result Id)) (last : Result Id) (max_size : Z)
    (max_distance : S1Angle.t) :
  is_int max_size ->
  0 <= max_size <= size (front ++ [last]) ->
  coverage_limit (front ++ [last]) max_size max_distance S1Angle.Zero
    S1Angle.Zero = fst last
  /\ (value (Extra_check (front ++ [last]) actual max_size max_distance
               S1Angle.Zero) = true
      <-> forall p, In p actual -> (fst p <? fst last) = true ->
            count (front ++ [last]) p = 1).
Proof.
  intros Hint [Hlo Hhi].
  assert (Hlimit :
    coverage_limit (front ++ [last]) max_size max_distance S1Angle.Zero
      S1Angle.Zero = fst last).
  { rewrite coverage_limit_capped, !angle_sub_Zero; [reflexivity|].
    apply Z.ltb_ge. destruct Hint as [_ Hmax].
    now rewrite to_size_t_nonneg by lia. }
  split; [exact Hlimit|].
  unfold Extra_check. rewrite CheckResultSet_true_iff, Hlimit. reflexivity.
Qed.

(** X13.  [CompareFirst] is the strict weak ordering [std::is_sorted] asks
    for, as long as no distance is a NaN: it never holds of a pair and
    itself, it is transitive, and a pair between two ordered pairs is
    ordered with one of them; it never looks at the identifiers. *)
Theorem CompareFirst_strict_weak_ordering :
  (forall p : Result Id, CompareFirst p p = false)
  /\ (forall p q r : Result Id,
        CompareFirst p q = true -> CompareFirst q r = true ->
        CompareFirst p r = true)
  /\ (forall p q r : Result Id,
        S1Angle.is_number (fst q) = true ->
        CompareFirst p r = true ->
        CompareFirst p q = true \/ CompareFirst q r = true)
  /\ (forall (a b : S1Angle.t) (i i' j j' : Id),
        CompareFirst (a, i) (b, j) = CompareFirst (a, i') (b, j')).
Proof.
  unfold CompareFirst. repeat split.
  - intros p. apply angle_ltb_irrefl.
  - intros p q r. apply angle_ltb_trans.
  - intros p q r. apply angle_ltb_cotrans.
Qed.

End ExactFacts.

(** ** Runs of the further properties *)

Section FurtherRuns.

Import S2_internal Examples MoreExamples.
Local Open Scope string_scope.
Local Open Scope angle_scope.

Lemma duplicates_expectation_fails_iff_equivalent_keys_run :
  distances_are_numbers doubled
  /\ (In (ExpectFailure duplicates_expectation)
         (events (CheckResultSet doubled single 1 (S1Angle.Degrees 10)
                    (S1Angle.Degrees 0) kMaxPruningError "Missing"))
      <-> has_equivalent_keys doubled).
Proof.
  assert (Nx : distances_are_numbers doubled)
    by (apply example_numbers; reflexivity).
  split; [exact Nx|].
  exact (duplicates_expectation_fails_iff_equivalent_keys doubled single 1
           (S1Angle.Degrees 10) (S1Angle.Degrees 0) kMaxPruningError
           "Missing" Nx).
Defined.

Lemma identical_sequences_pass_run :
  distances_are_numbers expected
  /\ ~ has_equivalent_keys expected
  /\ value (CheckDistanceResults LeftFirst expected expected 2
              (S1Angle.Degrees 10) (S1Angle.Degrees 0)) = true.
Proof.
  assert (Nx : distances_are_numbers expected)
    by (apply example_numbers; reflexivity).
  assert (Hnodup : ~ has_equivalent_keys expected).
  { intros Hdup.
    apply (set_smaller_iff_equivalent_keys expected Nx) in Hdup.
    vm_compute in Hdup. discriminate. }
  split; [exact Nx|]. split; [exact Hnodup|].
  exact (identical_sequences_pass LeftFirst expected 2 (S1Angle.Degrees 10)
           (S1Angle.Degrees 0) Nx Hnodup).
Defined.

Lemma nan_pair_never_reported_run :
  In (Diagnostic "Missing" (S1Angle.Degrees 2, "b"))
     (events (CheckDistanceResults LeftFirst expected gapped 2
                (S1Angle.Degrees 10) (S1Angle.Degrees 0)))
  /\ S1Angle.is_number (fst (S1Angle.Degrees 2, "b")) = true.
Proof.
  assert (Hin :
    In (Diagnostic "Missing" (S1Angle.Degrees 2, "b"))
       (events (CheckDistanceResults LeftFirst expected gapped 2
                  (S1Angle.Degrees 10) (S1Angle.Degrees 0))))
    by (vm_compute; left; reflexivity).
  split; [exact Hin|].
  exact (nan_pair_never_reported LeftFirst expected gapped 2
           (S1Angle.Degrees 10) (S1Angle.Degrees 0) "Missing"
           (S1Angle.Degrees 2, "b") Hin).
Defined.

Lemma nan_max_distance_accepts_everything_run :
  is_int 5
  /\ (size expected < 5)%Z
  /\ (size truncated < 5)%Z
  /\ S1Angle.is_number not_a_number = false
  /\ value (CheckDistanceResults LeftFirst expected truncated 5
              not_a_number (S1Angle.Degrees 0)) = true.
Proof.
  assert (Hint : is_int 5) by (unfold is_int; cbv; split; discriminate).
  assert (He : (size expected < 5)%Z) by reflexivity.
  assert (Ha : (size truncated < 5)%Z) by reflexivity.
  assert (Hnan : S1Angle.is_number not_a_number = false) by reflexivity.
  repeat (split; [assumption|]).
  exact (nan_max_distance_accepts_everything LeftFirst expected truncated 5
           not_a_number (S1Angle.Degrees 0) Hint He Ha Hnan).
Defined.

Lemma empty_actual_passes_iff_nothing_below_limit_run :
  is_int 2
  /\ 2%Z <> 0%Z
  /\ (value (CheckDistanceResults LeftFirst expected [] 2
               (S1Angle.Degrees 10) (S1Angle.Degrees 0)) = true
      <-> forall p, In p expected ->
            (fst p <? S1Angle.Degrees 10 - kMaxPruningError) = false).
Proof.
  assert (Hint : is_int 2) by (unfold is_int; cbv; split; discriminate).
  assert (Hnz : 2%Z <> 0%Z) by discriminate.
  split; [exact Hint|]. split; [exact Hnz|].
  exact (empty_actual_passes_iff_nothing_below_limit LeftFirst expected 2
           (S1Angle.Degrees 10) (S1Angle.Degrees 0) Hint Hnz).
Defined.

Lemma empty_expected_passes_iff_nothing_below_max_distance_run :
  is_int 2
  /\ 2%Z <> 0%Z
  /\ (value (CheckDistanceResults LeftFirst [] truncated 2
               (S1Angle.Degrees 10) (S1Angle.Degrees 0)) = true
      <-> forall p, In p truncated ->
            (fst p <? S1Angle.Degrees 10) = false).
Proof.
  assert (Hint : is_int 2) by (unfold is_int; cbv; split; discriminate).
  assert (Hnz : 2%Z <> 0%Z) by discriminate.
  split; [exact Hint|]. split; [exact Hnz|].
  exact (empty_expected_passes_iff_nothing_below_max_distance LeftFirst
           truncated 2 (S1Angle.Degrees 10) (S1Angle.Degrees 0) Hint Hnz).
Defined.

Lemma duplicates_expectation_agrees_with_count_run :
  distances_are_numbers doubled
  /\ (In (ExpectFailure duplicates_expectation)
         (events (CheckResultSet doubled single 1 (S1Angle.Degrees 10)
                    (S1Angle.Degrees 0) kMaxPruningError "Missing"))
      <-> exists p, In p doubled /\ (2 <= count doubled p)%Z).
Proof.
  assert (Nx : distances_are_numbers doubled)
    by (apply example_numbers; reflexivity).
  split; [exact Nx|].
  exact (duplicates_expectation_agrees_with_count doubled single 1
           (S1Angle.Degrees 10) (S1Angle.Degrees 0) kMaxPruningError
           "Missing" Nx).
Defined.

Lemma uncapped_result_ignores_order_run :
  is_int 5
  /\ (size first_two < 5)%Z
  /\ (size first_two < 5)%Z
  /\ Permutation first_two reversed
  /\ Permutation first_two reversed
  /\ value (CheckDistanceResults LeftFirst reversed reversed 5
              (S1Angle.Degrees 10) (S1Angle.Degrees 0))
     = value (CheckDistanceResults LeftFirst first_two first_two 5
                (S1Angle.Degrees 10) (S1Angle.Degrees 0)).
Proof.
  assert (Hint : is_int 5) by (unfold is_int; cbv; split; discriminate).
  assert (Hsize : (size first_two < 5)%Z) by reflexivity.
  assert (Hperm : Permutation first_two reversed) by apply perm_swap.
  repeat (split; [assumption|]).
  exact (uncapped_result_ignores_order LeftFirst first_two reversed
           first_two reversed 5 (S1Angle.Degrees 10) (S1Angle.Degrees 0)
           Hint Hsize Hsize Hperm Hperm).
Defined.

Lemma exact_capped_Extra_limit_is_last_distance_run :
  is_int 2
  /\ (0 <= 2 <= size (truncated ++ [(S1Angle.Degrees 3, "c")]))%Z
  /\ coverage_limit (truncated ++ [(S1Angle.Degrees 3, "c")]) 2
       (S1Angle.Degrees 10) S1Angle.Zero S1Angle.Zero
     = S1Angle.Degrees 3.
Proof.
  assert (Hint : is_int 2) by (unfold is_int; cbv; split; discriminate).
  assert (Hcap : (0 <= 2 <= size (truncated ++ [(S1Angle.Degrees 3, "c")]))%Z)
    by (cbv; split; discriminate).
  split; [exact Hint|]. split; [exact Hcap|].
  exact (proj1 (exact_capped_Extra_limit_is_last_distance truncated gapped
                  (S1Angle.Degrees 3, "c") 2 (S1Angle.Degrees 10)
                  Hint Hcap)).
Defined.

End FurtherRuns.
